(** * AppleSGLX: the GLX context registry of [apple_glx_context.c]

    A shallow embedding of [src/apple_glx_context.c] and the properties of
    its context registry, of context destruction and of make-current.

    The C file keeps every live [struct apple_glx_context] on a global
    doubly-linked list guarded by one mutex.  The functions embedded here
    are

      - [lock_context_list], [unlock_context_list]
      - [apple_glx_create_context]
      - [apple_glx_destroy_context]
      - [apple_glx_make_current_context]
      - [apple_glx_is_current_drawable]
      - [apple_glx_get_surface_from_uid]

    Memory is explicit: a heap of context structs addressed by non-null
    pointers, the two globals [context_list] and [context_lock], and the
    [void *] cells that callers pass by reference.  The functions of other
    translation units (the [apple_cgl] table, the drawable manager, the
    AppleDRI and Xplugin calls, pthreads, malloc) are fields of an
    interface over an abstract world; every call to one of them is logged
    together with the memory and the world as they were when the call was
    issued. *)

From stdpp Require Import gmap list.
From Stdlib Require Import ZArith.

Local Open Scope Z_scope.

(** ** C data *)

(** A non-null pointer to a [struct apple_glx_context] or to a
    [struct apple_glx_drawable]; a C pointer that may be [NULL] is an
    [option] of it. *)
Abbreviation addr := positive.

(** Opaque handles that this file never dereferences ([CGLContextObj],
    [CGLPixelFormatObj], [Display *], the visual [mode]): the pointer value,
    [0] for [NULL]. *)
Definition CGLContextObj := N.
Definition CGLPixelFormatObj := N.
Definition Display := N.
Definition NULL : N := 0%N.

(** [CGLError] and [xp_error] are C enumerations, [0] meaning no error. *)
Definition CGLError := Z.
Definition xp_error := Z.
Definition kCGLNoError : CGLError := 0.

(** X resource ids ([Drawable], [GLXDrawable]), [None] being [0]. *)
Definition XID := N.
Definition None_XID : XID := 0%N.
Definition xp_surface_id := N.
Definition pthread_t := N.

(** The fields of [struct apple_glx_context] that the file uses. *)
Record apple_glx_context : Type := mk_context {
  context_obj : CGLContextObj;
  pixel_format_obj : CGLPixelFormatObj;
  drawable : option addr;
  thread_id : pthread_t;
  screen : Z;
  double_buffered : bool;
  previous : option addr;
  next : option addr
}.

(** The fields of [struct apple_glx_drawable] that the file reads. *)
Record apple_glx_drawable : Type := mk_drawable {
  agd_drawable : XID;
  agd_surface_id : xp_surface_id;
  agd_uid : N
}.

Definition set_drawable (d : option addr) (c : apple_glx_context) :=
  mk_context (context_obj c) (pixel_format_obj c) d (thread_id c)
             (screen c) (double_buffered c) (previous c) (next c).
Definition set_thread_id (t : pthread_t) (c : apple_glx_context) :=
  mk_context (context_obj c) (pixel_format_obj c) (drawable c) t
             (screen c) (double_buffered c) (previous c) (next c).
Definition set_previous (p : option addr) (c : apple_glx_context) :=
  mk_context (context_obj c) (pixel_format_obj c) (drawable c) (thread_id c)
             (screen c) (double_buffered c) p (next c).
Definition set_next (n : option addr) (c : apple_glx_context) :=
  mk_context (context_obj c) (pixel_format_obj c) (drawable c) (thread_id c)
             (screen c) (double_buffered c) (previous c) n.
Definition set_context_obj (o : CGLContextObj) (c : apple_glx_context) :=
  mk_context o (pixel_format_obj c) (drawable c) (thread_id c)
             (screen c) (double_buffered c) (previous c) (next c).
Definition set_pixel_format_obj (pf : CGLPixelFormatObj)
    (c : apple_glx_context) :=
  mk_context (context_obj c) pf (drawable c) (thread_id c)
             (screen c) (double_buffered c) (previous c) (next c).
Definition set_screen (n : Z) (c : apple_glx_context) :=
  mk_context (context_obj c) (pixel_format_obj c) (drawable c) (thread_id c)
             n (double_buffered c) (previous c) (next c).
Definition set_double_buffered (db : bool) (c : apple_glx_context) :=
  mk_context (context_obj c) (pixel_format_obj c) (drawable c) (thread_id c)
             (screen c) db (previous c) (next c).

(** ** Memory *)

(** [heap] holds the allocated context structs, [context_list] and
    [context_lock] are the two file-scope variables ([context_lock] is
    [true] while the mutex is held), and [cells] are the [void *] variables
    of the callers, which [apple_glx_create_context] and
    [apple_glx_destroy_context] receive by address. *)
Record memory : Type := mk_memory {
  heap : gmap positive apple_glx_context;
  context_list : option addr;
  context_lock : bool;
  cells : gmap positive (option addr)
}.

Definition with_heap (h : gmap positive apple_glx_context) (m : memory) :=
  mk_memory h (context_list m) (context_lock m) (cells m).
Definition with_context_list (l : option addr) (m : memory) :=
  mk_memory (heap m) l (context_lock m) (cells m).
Definition with_context_lock (b : bool) (m : memory) :=
  mk_memory (heap m) (context_list m) b (cells m).
Definition with_cells (c : gmap positive (option addr)) (m : memory) :=
  mk_memory (heap m) (context_list m) (context_lock m) c.

(** ** Events *)

(** One event per call that leaves the file, with its arguments and what it
    returned, and one per iteration of the scan loop of
    [apple_glx_get_surface_from_uid]. *)
Inductive event : Type :=
| EvMutexLock (rc : Z)
| EvMutexUnlock (rc : Z)
| EvMalloc (ok : bool)
| EvFree (p : addr)
| EvCreatePfobj (mode : N) (pf : CGLPixelFormatObj) (db : bool)
| EvCglCreateContext (pf : CGLPixelFormatObj) (share : CGLContextObj)
                     (err : CGLError) (obj : CGLContextObj)
| EvCglSetCurrentContext (obj : CGLContextObj) (err : CGLError)
| EvCglClearDrawable (obj : CGLContextObj) (err : CGLError)
| EvCglDestroyPixelFormat (pf : CGLPixelFormatObj) (err : CGLError)
| EvCglDestroyContext (obj : CGLContextObj) (err : CGLError)
| EvFindDrawable (dpy : Display) (id : XID) (agd : option addr)
| EvCreateDrawable (dpy : Display) (ac : addr) (id : XID)
                   (err : bool) (agd : option addr)
| EvReleaseDrawable (agd : addr)
| EvDestroyDrawable (agd : addr) (last : bool)
| EvDestroySurface (dpy : Display) (scr : Z) (id : XID)
| EvGarbageCollect (dpy : Display)
| EvAttach (obj : CGLContextObj) (sid : xp_surface_id) (err : xp_error)
| EvExamine (ac : addr).

(** The calls that tear something down. *)
Definition is_teardown (e : event) : bool :=
  match e with
  | EvDestroyDrawable _ _ | EvDestroySurface _ _ _
  | EvCglDestroyPixelFormat _ _ | EvCglDestroyContext _ _ => true
  | _ => false
  end.

Definition is_destroy_surface (e : event) : bool :=
  match e with EvDestroySurface _ _ _ => true | _ => false end.

(** ** The collaborators *)

(** What the file calls and does not define, over a world [W] that only
    the collaborators see.  None of them writes the context structs, the
    list head or the callers' cells, and the mutex changes hands only
    through the two pthread calls, whose effect on [context_lock] is
    written out in [lock_context_list] and [unlock_context_list]; a call
    of the notification handler from within a collaborator is not part of
    the model.  [apple_glx_create_drawable] is given the struct that its
    [ac] argument points to, to read.  [drawable_at] reads a drawable
    record, which the drawable manager owns; it is [None] where the pointer
    does not point to a record.  What the file prints on [stderr] is left
    out. *)
Class Externals (W : Type) : Type := {
  pthread_mutex_lock : W -> Z * W;
  pthread_mutex_unlock : W -> Z * W;
  malloc_ok : W -> bool * W;
  apple_visual_create_pfobj : N -> W -> (CGLPixelFormatObj * bool) * W;
  cgl_create_context :
    CGLPixelFormatObj -> CGLContextObj -> W -> (CGLError * CGLContextObj) * W;
  cgl_destroy_context : CGLContextObj -> W -> CGLError * W;
  cgl_set_current_context : CGLContextObj -> W -> CGLError * W;
  cgl_clear_drawable : CGLContextObj -> W -> CGLError * W;
  cgl_destroy_pixel_format : CGLPixelFormatObj -> W -> CGLError * W;
  apple_glx_find_drawable : Display -> XID -> W -> option addr * W;
  apple_glx_create_drawable :
    Display -> addr -> apple_glx_context -> XID -> W
    -> (bool * option addr) * W;
  apple_glx_release_drawable : addr -> W -> unit * W;
  apple_glx_destroy_drawable : addr -> W -> bool * W;
  apple_glx_garbage_collect_drawables : Display -> W -> unit * W;
  XAppleDRIDestroySurface : Display -> Z -> XID -> W -> unit * W;
  xp_attach_gl_context : CGLContextObj -> xp_surface_id -> W -> xp_error * W;
  drawable_at : W -> addr -> option apple_glx_drawable
}.

(** ** The monad *)

Section Program.

Context {W : Type} `{Externals W}.

Record state : Type := mk_state {
  st_mem : memory;
  st_world : W;
  st_log : list (event * memory * W)
}.

(** A run ends by returning, by [abort()], by dereferencing a pointer that
    does not point to a struct (undefined in C), or, for a loop, by
    exhausting its fuel. *)
Inductive outcome (A : Type) : Type :=
| Done (a : A) (s : state)
| Aborted (s : state)
| Fault (s : state)
| OutOfFuel (s : state).
Arguments Done {A} a s.
Arguments Aborted {A} s.
Arguments Fault {A} s.
Arguments OutOfFuel {A} s.

Definition M (A : Type) : Type := state -> outcome A.

Definition ret {A} (a : A) : M A := fun s => Done a s.

Definition bind {A B} (m : M A) (k : A -> M B) : M B :=
  fun s =>
    match m s with
    | Done a s' => k a s'
    | Aborted s' => Aborted s'
    | Fault s' => Fault s'
    | OutOfFuel s' => OutOfFuel s'
    end.

Definition final {A} (o : outcome A) : state :=
  match o with
  | Done _ s | Aborted s | Fault s | OutOfFuel s => s
  end.

Definition abort {A} : M A := fun s => Aborted s.
Definition fault {A} : M A := fun s => Fault s.

Definition get_mem : M memory := fun s => Done (st_mem s) s.
Definition put_mem (m : memory) : M unit :=
  fun s => Done tt (mk_state m (st_world s) (st_log s)).

(** Appends an event, with the memory and the world of the moment. *)
Definition emit (e : event) : M unit :=
  fun s =>
    Done tt (mk_state (st_mem s) (st_world s)
                      (st_log s ++ [(e, st_mem s, st_world s)])).

(** A call to a collaborator: the event is logged with the memory and the
    world as the callee finds them, and the world moves on. *)
Definition call {R} (f : W -> R * W) (ev : R -> event) : M R :=
  fun s =>
    let (r, w) := f (st_world s) in
    Done r (mk_state (st_mem s) w
                     (st_log s ++ [(ev r, st_mem s, st_world s)])).

End Program.

Arguments Done {W A} a s.
Arguments Aborted {W A} s.
Arguments Fault {W A} s.
Arguments OutOfFuel {W A} s.
Arguments state W : clear implicits.
Arguments outcome W A : clear implicits.
Arguments M W A : clear implicits.

Declare Scope prog_scope.
Delimit Scope prog_scope with prog.
Notation "'do' x <- m ; k" := (bind m (fun x => k))
  (at level 10, x name, m at level 100, k at level 200) : prog_scope.
Notation "'do' ' p <- m ; k" := (bind m (fun '(p) => k))
  (at level 10, p pattern, m at level 100, k at level 200) : prog_scope.
Local Open Scope prog_scope.

(** ** The code *)

Section Code.

Context {W : Type} `{Externals W}.

(** *** Memory accesses *)

(** [*p] for a pointer to a context struct. *)
Definition load_ctx (p : addr) : M W apple_glx_context :=
  fun s =>
    match heap (st_mem s) !! p with
    | Some c => Done c s
    | None => Fault s
    end.

(** [p->f], read. *)
Definition field {A} (p : addr) (f : apple_glx_context -> A) : M W A :=
  do c <- load_ctx p; ret (f c).

(** [p->f = v], as the update [upd] of the struct. *)
Definition store_ctx (p : addr)
    (upd : apple_glx_context -> apple_glx_context) : M W unit :=
  do c <- load_ctx p;
  do m <- get_mem;
  put_mem (with_heap (<[p := upd c]> (heap m)) m).

(** [agd->f], read from the drawable manager's record. *)
Definition load_drawable (agd : addr) : M W apple_glx_drawable :=
  fun s =>
    match drawable_at (st_world s) agd with
    | Some r => Done r s
    | None => Fault s
    end.

(** [*ptr] for a [void **ptr]. *)
Definition load_cell (ptr : addr) : M W (option addr) :=
  fun s =>
    match cells (st_mem s) !! ptr with
    | Some v => Done v s
    | None => Fault s
    end.

(** [*ptr = v]. *)
Definition store_cell (ptr : addr) (v : option addr) : M W unit :=
  do _ <- load_cell ptr;
  do m <- get_mem;
  put_mem (with_cells (<[ptr := v]> (cells m)) m).

Definition get_context_list : M W (option addr) :=
  do m <- get_mem; ret (context_list m).
Definition set_context_list (l : option addr) : M W unit :=
  do m <- get_mem; put_mem (with_context_list l m).
Definition set_context_lock (b : bool) : M W unit :=
  do m <- get_mem; put_mem (with_context_lock b m).

(** The struct as [malloc] hands it out.  Its fields are indeterminate in
    C; the code writes each one before it reads it. *)
Definition blank_context : apple_glx_context :=
  mk_context NULL NULL None 0%N 0 false None None.

(** [malloc(sizeof *ac)]: [NULL], or a block that is not allocated yet. *)
Definition malloc : M W (option addr) :=
  do ok <- call malloc_ok EvMalloc;
  if ok then
    do m <- get_mem;
    let p := fresh (dom (heap m)) in
    do _ <- put_mem (with_heap (<[p := blank_context]> (heap m)) m);
    ret (Some p)
  else ret None.

(** [free(ac)]. *)
Definition free (p : addr) : M W unit :=
  do _ <- load_ctx p;
  do _ <- emit (EvFree p);
  do m <- get_mem;
  put_mem (with_heap (delete p (heap m)) m).

(** *** Lines 65 to 77 *)

Definition lock_context_list : M W unit :=
  do rc <- call pthread_mutex_lock EvMutexLock;
  if rc =? 0 then set_context_lock true else abort.

Definition unlock_context_list : M W unit :=
  do rc <- call pthread_mutex_unlock EvMutexUnlock;
  if rc =? 0 then set_context_lock false else abort.

(** *** Lines 86 to 128 *)

(** [self] is the thread that runs the call, what [pthread_self()]
    returns. *)
Definition apple_glx_create_context (self : pthread_t) (ptr : addr)
    (dpy : Display) (scr : Z) (mode : N) (sharedContext : option addr)
    : M W unit :=
  do r <- malloc;
  match r with
  | None => abort
  | Some ac =>
      do _ <- store_ctx ac (set_context_obj NULL);
      do _ <- store_ctx ac (set_pixel_format_obj NULL);
      do _ <- store_ctx ac (set_drawable None);
      do _ <- store_ctx ac (set_thread_id self);
      do _ <- store_ctx ac (set_screen scr);
      do pfdb <- call (apple_visual_create_pfobj mode)
                      (fun r => EvCreatePfobj mode (fst r) (snd r));
      do _ <- store_ctx ac (set_pixel_format_obj (fst pfdb));
      do _ <- store_ctx ac (set_double_buffered (snd pfdb));
      do pf <- field ac pixel_format_obj;
      do share <- match sharedContext with
                  | Some sharedac => field sharedac context_obj
                  | None => ret NULL
                  end;
      do eo <- call (cgl_create_context pf share)
                    (fun r => EvCglCreateContext pf share (fst r) (snd r));
      do _ <- store_ctx ac (set_context_obj (snd eo));
      if negb (fst eo =? 0) then abort
      else
        do _ <- lock_context_list;
        do hd <- get_context_list;
        do _ <- match hd with
                | Some h => store_ctx h (set_previous (Some ac))
                | None => ret tt
                end;
        do _ <- store_ctx ac (set_previous None);
        do hd <- get_context_list;
        do _ <- store_ctx ac (set_next hd);
        do _ <- set_context_list (Some ac);
        do _ <- unlock_context_list;
        store_cell ptr (Some ac)
  end.

(** *** Lines 130 to 192 *)

(** Lines 143 to 151: [ac] leaves the list. *)
Definition unlink (ac : addr) : M W unit :=
  do prev <- field ac previous;
  do _ <- match prev with
          | Some p => do n <- field ac next; store_ctx p (set_next n)
          | None => do n <- field ac next; set_context_list n
          end;
  do nxt <- field ac next;
  match nxt with
  | Some n => do p <- field ac previous; store_ctx n (set_previous p)
  | None => ret tt
  end.

(** Lines 167 to 177. *)
Definition destroy_attached (ac : addr) (dpy : Display) : M W unit :=
  do d <- field ac drawable;
  match d with
  | Some agd =>
      do r <- load_drawable agd;
      let id := agd_drawable r in
      do last <- call (apple_glx_destroy_drawable agd) (EvDestroyDrawable agd);
      if last then
        do scr <- field ac screen;
        call (XAppleDRIDestroySurface dpy scr id)
             (fun _ => EvDestroySurface dpy scr id)
      else ret tt
  | None => ret tt
  end.

Definition apple_glx_destroy_context (ptr : addr) (dpy : Display)
    : M W unit :=
  do v <- load_cell ptr;
  match v with
  | None => ret tt
  | Some ac =>
      do e <- call (cgl_set_current_context NULL)
                   (EvCglSetCurrentContext NULL);
      if negb (e =? 0) then abort
      else
        do _ <- lock_context_list;
        do _ <- unlink ac;
        do _ <- unlock_context_list;
        do obj <- field ac context_obj;
        do e <- call (cgl_clear_drawable obj) (EvCglClearDrawable obj);
        if negb (e =? 0) then abort
        else
          do _ <- destroy_attached ac dpy;
          do pf <- field ac pixel_format_obj;
          do e <- call (cgl_destroy_pixel_format pf)
                       (EvCglDestroyPixelFormat pf);
          if negb (e =? 0) then abort
          else
            do obj <- field ac context_obj;
            do e <- call (cgl_destroy_context obj) (EvCglDestroyContext obj);
            if negb (e =? 0) then abort
            else
              do _ <- free ac;
              do _ <- store_cell ptr None;
              call (apple_glx_garbage_collect_drawables dpy)
                   (fun _ => EvGarbageCollect dpy)
  end.

(** *** Lines 227 to 314 *)

(** Lines 273 to 313, with [agd] found or created. *)
Definition attach_and_set_current (self : pthread_t) (ac : addr)
    (agd : option addr) : M W bool :=
  do _ <- store_ctx ac (set_drawable agd);
  match agd with
  | None => fault
  | Some g =>
      do obj <- field ac context_obj;
      do r <- load_drawable g;
      do error <- call (xp_attach_gl_context obj (agd_surface_id r))
                       (EvAttach obj (agd_surface_id r));
      if negb (error =? 0) then ret true
      else
        do obj <- field ac context_obj;
        do cglerr <- call (cgl_set_current_context obj)
                          (EvCglSetCurrentContext obj);
        if negb (cglerr =? kCGLNoError) then ret true
        else
          do _ <- store_ctx ac (set_thread_id self);
          ret false
  end.

(** Returns [true] if an error occurred.  The two [assert]s abort. *)
Definition apple_glx_make_current_context (self : pthread_t)
    (dpy : Display) (ptr : option addr) (drawable_id : XID) : M W bool :=
  if (dpy =? NULL)%N then abort
  else
    match ptr with
    | None => abort
    | Some ac =>
        if (drawable_id =? None_XID)%N then
          do obj <- field ac context_obj;
          do e <- call (cgl_clear_drawable obj) (EvCglClearDrawable obj);
          if negb (e =? 0) then ret true
          else
            do obj <- field ac context_obj;
            do e <- call (cgl_set_current_context obj)
                         (EvCglSetCurrentContext obj);
            if negb (e =? 0) then ret true else ret false
        else
          do old <- field ac drawable;
          do _ <- match old with
                  | Some d =>
                      do _ <- call (apple_glx_release_drawable d)
                                   (fun _ => EvReleaseDrawable d);
                      store_ctx ac (set_drawable None)
                  | None => ret tt
                  end;
          do found <- call (apple_glx_find_drawable dpy drawable_id)
                           (EvFindDrawable dpy drawable_id);
          match found with
          | Some g => attach_and_set_current self ac (Some g)
          | None =>
              do c <- load_ctx ac;
              do r <- call (apple_glx_create_drawable dpy ac c drawable_id)
                           (fun r => EvCreateDrawable dpy ac drawable_id
                                                      (fst r) (snd r));
              if fst r then ret true
              else attach_and_set_current self ac (snd r)
          end
    end.

(** *** Lines 316 to 322 *)

Definition apple_glx_is_current_drawable (ptr : option addr)
    (drawable_id : XID) : M W bool :=
  match ptr with
  | None => abort
  | Some ac =>
      do d <- field ac drawable;
      match d with
      | None => fault
      | Some g => do r <- load_drawable g; ret (agd_drawable r =? drawable_id)%N
      end
  end.

(** *** Lines 325 to 343 *)

(** The loop of lines 331 to 338, from the node [ac] on.  [Some (sid, obj)]
    is the early return of line 336, with [*sid] and [*contextobj] written
    and the list unlocked; [None] is the exit of the loop.  The C loop has
    no bound; [fuel] bounds the iterations of the model. *)
Fixpoint scan_context_list (fuel : nat) (uid : N) (ac : option addr)
    : M W (option (xp_surface_id * CGLContextObj)) :=
  match ac with
  | None => ret None
  | Some p =>
      match fuel with
      | O => fun s => OutOfFuel s
      | S fuel' =>
          do _ <- emit (EvExamine p);
          do d <- field p drawable;
          do hit <- match d with
                    | Some g => do r <- load_drawable g;
                                ret (agd_uid r =? uid)%N
                    | None => ret false
                    end;
          if hit then
            do d <- field p drawable;
            match d with
            | None => fault
            | Some g =>
                do r <- load_drawable g;
                do obj <- field p context_obj;
                do _ <- unlock_context_list;
                ret (Some (agd_surface_id r, obj))
            end
          else
            do n <- field p next;
            scan_context_list fuel' uid n
      end
  end.

(** [Some (sid, obj)] stands for the return value [false] with the two
    out-parameters written, [None] for the return value [true]. *)
Definition apple_glx_get_surface_from_uid (fuel : nat) (uid : N)
    : M W (option (xp_surface_id * CGLContextObj)) :=
  do _ <- lock_context_list;
  do hd <- get_context_list;
  do r <- scan_context_list fuel uid hd;
  match r with
  | Some found => ret (Some found)
  | None => do _ <- unlock_context_list; ret None
  end.

End Code.

(** ** A reference world *)

(** Modelled from the spec: the collaborators, none of which is defined in
    [apple_glx_context.c].  The drawable manager "finds or creates a
    reference-counted drawable record exposing a surface identifier and a
    unique id; release decrements a reference count; destroy reports whether
    the last reference was released".  The native layer and the protocol
    calls answer with the error codes of a [sim_config]; the mutex and
    [malloc] never fail. *)
Module Sim.

Record sim_config : Type := mk_config {
  cfg_attach : xp_error;
  cfg_set_current : CGLError;
  cfg_clear_drawable : CGLError;
  cfg_create_drawable : bool
}.

Definition healthy : sim_config := mk_config 0 0 0 false.

(** The records of the drawable manager with their reference counts, the
    current native context, and the number of native objects handed out. *)
Record world : Type := mk_world {
  drawables : gmap positive (apple_glx_drawable * nat);
  current : CGLContextObj;
  made : N
}.

Definition empty_world : world := mk_world ∅ NULL 0%N.

(** The record of drawable [id] lives at address [id + 1]. *)
Definition record_addr (id : XID) : addr := N.succ_pos id.

Definition with_drawables (d : gmap positive (apple_glx_drawable * nat))
    (w : world) : world :=
  mk_world d (current w) (made w).

Definition find (id : XID) (w : world) : option addr * world :=
  match drawables w !! record_addr id with
  | Some (r, n) =>
      if (agd_drawable r =? id)%N then
        (Some (record_addr id),
         with_drawables (<[record_addr id := (r, S n)]> (drawables w)) w)
      else (None, w)
  | None => (None, w)
  end.

Definition create (fails : bool) (id : XID) (w : world)
    : (bool * option addr) * world :=
  if fails then ((true, None), w)
  else
    let r := mk_drawable id (id + 100)%N (id + 1000)%N in
    ((false, Some (record_addr id)),
     with_drawables (<[record_addr id := (r, 1%nat)]> (drawables w)) w).

(** Drops one reference; the record goes with the last one.  The result is
    [true] when it was the last. *)
Definition unref (agd : addr) (w : world) : bool * world :=
  match drawables w !! agd with
  | Some (r, S (S n)) =>
      (false, with_drawables (<[agd := (r, S n)]> (drawables w)) w)
  | Some (r, _) => (true, with_drawables (delete agd (drawables w)) w)
  | None => (false, w)
  end.

Definition set_current (rc : CGLError) (obj : CGLContextObj) (w : world)
    : CGLError * world :=
  if rc =? 0 then (0, mk_world (drawables w) obj (made w)) else (rc, w).

Definition fresh_obj (w : world) : N * world :=
  (N.succ (made w), mk_world (drawables w) (current w) (N.succ (made w))).

Definition externals (cfg : sim_config) : Externals world := {|
  pthread_mutex_lock := fun w => (0, w);
  pthread_mutex_unlock := fun w => (0, w);
  malloc_ok := fun w => (true, w);
  apple_visual_create_pfobj := fun mode w =>
    let (pf, w') := fresh_obj w in ((pf, N.odd mode), w');
  cgl_create_context := fun pf share w =>
    let (obj, w') := fresh_obj w in ((0, obj), w');
  cgl_destroy_context := fun obj w => (0, w);
  cgl_set_current_context := set_current (cfg_set_current cfg);
  cgl_clear_drawable := fun obj w => (cfg_clear_drawable cfg, w);
  cgl_destroy_pixel_format := fun pf w => (0, w);
  apple_glx_find_drawable := fun dpy id w => find id w;
  apple_glx_create_drawable := fun dpy ac c id w =>
    create (cfg_create_drawable cfg) id w;
  apple_glx_release_drawable := fun agd w => (tt, snd (unref agd w));
  apple_glx_destroy_drawable := unref;
  apple_glx_garbage_collect_drawables := fun dpy w => (tt, w);
  XAppleDRIDestroySurface := fun dpy scr id w => (tt, w);
  xp_attach_gl_context := fun obj sid w => (cfg_attach cfg, w);
  drawable_at := fun w agd => fst <$> drawables w !! agd
|}.

(** Nothing allocated, nothing locked, two cells of callers at the
    addresses [1] and [2]. *)
Definition empty_memory : memory :=
  mk_memory ∅ None false {[ 1%positive := None; 2%positive := None ]}.

Definition init : state world := mk_state empty_memory empty_world [].

Definition dpy : Display := 7%N.

(** Thread [1] creates a context through the cell [1], then a second one
    through the cell [2] that shares with the first; the structs land at
    the addresses [1] and [2]. *)
Definition one_context : state world :=
  final (@apple_glx_create_context _ (externals healthy)
           1%N 1%positive dpy 0 0%N None init).

Definition two_contexts : state world :=
  final (@apple_glx_create_context _ (externals healthy)
           1%N 2%positive dpy 0 0%N (Some 1%positive) one_context).

(** Thread [2] makes the first context current on the drawable [10]. *)
Definition bound : state world :=
  final (@apple_glx_make_current_context _ (externals healthy)
           2%N dpy (Some 1%positive) 10%N two_contexts).

(** A native layer whose attach call fails with the code [5]. *)
Definition attach_fails : sim_config := mk_config 5 0 0 false.

(** The struct of the first context once it is bound, and the record of
    the drawable [10]. *)
Definition first_struct : apple_glx_context :=
  mk_context 2%N 1%N (Some 11%positive) 2%N 0 false (Some 2%positive) None.

Definition record10 : apple_glx_drawable := mk_drawable 10%N 110%N 1010%N.

(** The first context is destroyed through its cell. *)
Definition destroyed : state world :=
  final (@apple_glx_destroy_context _ (externals healthy)
           1%positive dpy bound).

(** Thread [3] makes the first context current with no drawable. *)
Definition cleared : state world :=
  final (@apple_glx_make_current_context _ (externals healthy)
           3%N dpy (Some 1%positive) None_XID bound).

(** Thread [2] switches the first context to the drawable [20], and the
    attach call fails. *)
Definition attach_failed_state : state world :=
  final (@apple_glx_make_current_context _ (externals attach_fails)
           2%N dpy (Some 1%positive) 20%N bound).

End Sim.


(** ** Vocabulary of the properties *)

Section Vocabulary.

Context {W : Type} `{Externals W}.

(** The doubly-linked list that starts at [p], whose first node has [prev]
    for predecessor, holds the contexts [l] in this order. *)
Fixpoint dlist (h : gmap positive apple_glx_context) (prev p : option addr)
    (l : list addr) : Prop :=
  match l with
  | [] => p = None
  | a :: l' =>
      p = Some a /\
      exists c, h !! a = Some c /\ previous c = prev /\
                dlist h (Some a) (next c) l'
  end.

(** The live contexts: what [context_list] links, in list order. *)
Definition registry (m : memory) (l : list addr) : Prop :=
  dlist (heap m) None (context_list m) l.

(** What of a context struct is not a list link. *)
Definition payload (c : apple_glx_context) :=
  (context_obj c, pixel_format_obj c, drawable c, thread_id c, screen c,
   double_buffered c).

(** The attached drawable of the context at [ac], [None] as well when [ac]
    is not allocated. *)
Definition attached (m : memory) (ac : addr) : option addr :=
  match heap m !! ac with
  | Some c => drawable c
  | None => None
  end.

Definition events (log : list (event * memory * W)) : list event :=
  map (fun x => fst (fst x)) log.

(** No call that tears something down is issued with the lock held: the
    memory of such a log entry has [context_lock] clear. *)
Definition unlocked_teardown (x : event * memory * W) : Prop :=
  is_teardown (fst (fst x)) = true -> context_lock (snd (fst x)) = false.

(** What the log of a destruction shows of the list [x ++ ac :: y] it
    started from: the list is whole when the lock is requested, [ac] is gone
    from it and the lock is held when the unlock is requested, and [ac] is
    gone from it at every call that tears something down. *)
Definition unlinked_under_lock (x : list addr) (ac : addr) (y : list addr)
    (entry : event * memory * W) : Prop :=
  match fst (fst entry) with
  | EvMutexLock _ => registry (snd (fst entry)) (x ++ ac :: y)
  | EvMutexUnlock _ =>
      context_lock (snd (fst entry)) = true /\
      registry (snd (fst entry)) (x ++ y)
  | e => is_teardown e = true -> registry (snd (fst entry)) (x ++ y)
  end.

(** Some attach call of the log returned an error code. *)
Definition attach_failed (l : list event) : bool :=
  existsb (fun e => match e with
                    | EvAttach _ _ err => negb (err =? 0)
                    | _ => false
                    end) l.

(** The drawable manager handed out the record [g] in the log: it found
    it, or it created it. *)
Definition resolved (g : addr) (l : list event) : Prop :=
  (exists dpy id, In (EvFindDrawable dpy id (Some g)) l) \/
  (exists dpy ac id, In (EvCreateDrawable dpy ac id false (Some g)) l).

(** What the log of make-current calls on [ac] shows of its attached
    drawable: nothing is attached when a drawable is looked up or created,
    and what is released is what was attached. *)
Definition no_double_attach (ac : addr) (entry : event * memory * W)
    : Prop :=
  match fst (fst entry) with
  | EvFindDrawable _ _ _ | EvCreateDrawable _ _ _ _ _ =>
      attached (snd (fst entry)) ac = None
  | EvReleaseDrawable d => attached (snd (fst entry)) ac = Some d
  | _ => True
  end.

(** A caller that makes [ac] current for one drawable after the other,
    whatever the calls return. *)
Fixpoint make_current_each (self : pthread_t) (dpy : Display) (ac : addr)
    (targets : list XID) : M W (list bool) :=
  match targets with
  | [] => ret []
  | id :: rest =>
      do b <- apple_glx_make_current_context self dpy (Some ac) id;
      do bs <- make_current_each self dpy ac rest;
      ret (b :: bs)
  end.

(** The answer of the reverse lookup for the single context [p], in the
    words of the spec: [p] has a drawable attached whose owner uid is
    [uid]; then its surface id and the native context of [p]. *)
Definition owner_of (h : gmap positive apple_glx_context) (w : W) (uid : N)
    (p : addr) : option (xp_surface_id * CGLContextObj) :=
  match h !! p with
  | Some c =>
      match drawable c with
      | Some g =>
          match drawable_at w g with
          | Some r =>
              if (agd_uid r =? uid)%N
              then Some (agd_surface_id r, context_obj c) else None
          | None => None
          end
      | None => None
      end
  | None => None
  end.

(** The first match among the contexts [l], in list order. *)
Fixpoint first_owner (h : gmap positive apple_glx_context) (w : W) (uid : N)
    (l : list addr) : option (xp_surface_id * CGLContextObj) :=
  match l with
  | [] => None
  | p :: l' =>
      match owner_of h w uid p with
      | Some found => Some found
      | None => first_owner h w uid l'
      end
  end.

(** The contexts of [l] up to the first match, included. *)
Fixpoint examined (h : gmap positive apple_glx_context) (w : W) (uid : N)
    (l : list addr) : list addr :=
  match l with
  | [] => []
  | p :: l' =>
      p :: match owner_of h w uid p with
           | Some _ => []
           | None => examined h w uid l'
           end
  end.

(** The collaborators of make-current never fail: the drawable manager
    finds or creates a record of the drawable asked for, the attach call
    and the native set-current call return no error, and these two leave
    the drawable records alone. *)
Record healthy_layer : Prop := {
  find_gives_record : forall dpy id w g w',
    apple_glx_find_drawable dpy id w = (Some g, w') ->
    exists r, drawable_at w' g = Some r /\ agd_drawable r = id;
  create_gives_record : forall dpy ac c id w,
    exists g w' r,
      apple_glx_create_drawable dpy ac c id w = ((false, Some g), w') /\
      drawable_at w' g = Some r /\ agd_drawable r = id;
  attach_succeeds : forall obj sid w,
    exists w', xp_attach_gl_context obj sid w = (0, w') /\
               forall g, drawable_at w' g = drawable_at w g;
  set_current_succeeds : forall obj w,
    exists w', cgl_set_current_context obj w = (0, w') /\
               forall g, drawable_at w' g = drawable_at w g
}.

(** The calls of one make-current that goes all the way: release of what
    was attached, lookup of the drawable asked for, creation when the
    lookup found nothing, attach, native set-current. *)
Definition full_cycle (dpy : Display) (ac : addr) (id : XID)
    (l : list event) : Prop :=
  exists d r mid obj sid,
    l = EvReleaseDrawable d :: EvFindDrawable dpy id r
          :: mid ++ [EvAttach obj sid 0; EvCglSetCurrentContext obj 0] /\
    match r with
    | Some _ => mid = []
    | None => exists g, mid = [EvCreateDrawable dpy ac id false (Some g)]
    end.

(** The two stores of lines 144 and 150, for a context whose struct is
    [c]: the predecessor's [next] and the successor's [previous]. *)
Definition relink_prev (c : apple_glx_context)
    (h : gmap positive apple_glx_context) :=
  match previous c with
  | Some q => alter (set_next (next c)) q h
  | None => h
  end.
Definition relink_next (c : apple_glx_context)
    (h : gmap positive apple_glx_context) :=
  match next c with
  | Some n => alter (set_previous (previous c)) n h
  | None => h
  end.

End Vocabulary.

Arguments payload : simpl never.
Arguments unlink : simpl never.
Arguments destroy_attached : simpl never.
Arguments attach_and_set_current : simpl never.

(** ** More vocabulary: creation, destruction, references and lookup *)

Section MoreVocabulary.

Context {W : Type} `{Externals W}.

(** What the log of a creation shows of the list [l] it started from: the
    list is as it was at every call up to the request of the lock, and the
    new context [ac] is in front of it, with the lock held, when the unlock
    is requested. *)
Definition linked_under_lock (l : list addr) (ac : addr)
    (entry : event * memory * W) : Prop :=
  match fst (fst entry) with
  | EvMutexUnlock _ =>
      context_lock (snd (fst entry)) = true /\
      registry (snd (fst entry)) (ac :: l)
  | _ => registry (snd (fst entry)) l
  end.

(** A creation of the log failed: [malloc] returned [NULL], or the native
    layer returned an error code for the new context. *)
Definition creation_failed (l : list event) : bool :=
  existsb (fun e => match e with
                    | EvMalloc ok => negb ok
                    | EvCglCreateContext _ _ err _ => negb (err =? 0)
                    | _ => false
                    end) l.

Definition is_mutex_event (e : event) : bool :=
  match e with
  | EvMutexLock _ | EvMutexUnlock _ => true
  | _ => false
  end.

(** The native layer and the mutex never fail, and the mutex and the
    native set-current and clear-drawable calls leave the drawable records
    alone. *)
Record reliable_native : Prop := {
  native_set_current : forall obj w,
    exists w', cgl_set_current_context obj w = (0, w') /\
               forall g, drawable_at w' g = drawable_at w g;
  native_clear_drawable : forall obj w,
    exists w', cgl_clear_drawable obj w = (0, w') /\
               forall g, drawable_at w' g = drawable_at w g;
  native_lock : forall w,
    exists w', pthread_mutex_lock w = (0, w') /\
               forall g, drawable_at w' g = drawable_at w g;
  native_unlock : forall w,
    exists w', pthread_mutex_unlock w = (0, w') /\
               forall g, drawable_at w' g = drawable_at w g;
  native_destroy_pixel_format : forall pf w,
    fst (cgl_destroy_pixel_format pf w) = 0;
  native_destroy_context : forall obj w,
    fst (cgl_destroy_context obj w) = 0
}.

End MoreVocabulary.

Section References.

Context {W : Type} `{Externals W}.

(** Modelled from the spec: the drawable manager keeps "a
    reference-counted drawable record"; "release decrements a reference
    count; destroy reports whether the last reference was released".
    [refs w g] reads the count of the record [g] in the world [w].  The
    mutex and the native set-current and clear-drawable calls leave the
    counts alone, and [apple_glx_destroy_drawable] returns true for a
    record that is referenced only when the reference it drops is the
    last one. *)
Record counted_references (refs : W -> addr -> nat) : Prop := {
  set_current_keeps_references : forall obj w g,
    refs (snd (cgl_set_current_context obj w)) g = refs w g;
  clear_drawable_keeps_references : forall obj w g,
    refs (snd (cgl_clear_drawable obj w)) g = refs w g;
  lock_keeps_references : forall w g,
    refs (snd (pthread_mutex_lock w)) g = refs w g;
  unlock_keeps_references : forall w g,
    refs (snd (pthread_mutex_unlock w)) g = refs w g;
  last_reference : forall g w,
    (0 < refs w g)%nat ->
    fst (apple_glx_destroy_drawable g w) = true -> refs w g = 1%nat
}.

(** Every context that has a record attached holds a reference of its
    own: a record is counted at least as many times as there are contexts
    that have it attached. *)
Definition references_cover (refs : W -> addr -> nat) (m : memory) (w : W)
    : Prop :=
  forall g l, NoDup l -> (forall p, p ∈ l -> attached m p = Some g) ->
              (length l <= refs w g)%nat.

End References.

Section LookupVocabulary.

Context {W : Type} `{Externals W}.

(** What the log of a reverse lookup may hold: requests to the mutex, and
    examinations of a context made with the lock held. *)
Definition reads_under_lock (entry : event * memory * W) : Prop :=
  match fst (fst entry) with
  | EvMutexLock _ | EvMutexUnlock _ => True
  | EvExamine _ => context_lock (snd (fst entry)) = true
  | _ => False
  end.

End LookupVocabulary.

(** ** More of the reference world *)

Module Scenes.

(** The reference world with a native layer that cannot create a context:
    [create_context] returns the code [3]. *)
Definition no_native_context : Externals Sim.world := {|
  pthread_mutex_lock := @pthread_mutex_lock _ (Sim.externals Sim.healthy);
  pthread_mutex_unlock := @pthread_mutex_unlock _ (Sim.externals Sim.healthy);
  malloc_ok := @malloc_ok _ (Sim.externals Sim.healthy);
  apple_visual_create_pfobj :=
    @apple_visual_create_pfobj _ (Sim.externals Sim.healthy);
  cgl_create_context := fun pf share w => ((3, NULL), w);
  cgl_destroy_context := @cgl_destroy_context _ (Sim.externals Sim.healthy);
  cgl_set_current_context :=
    @cgl_set_current_context _ (Sim.externals Sim.healthy);
  cgl_clear_drawable := @cgl_clear_drawable _ (Sim.externals Sim.healthy);
  cgl_destroy_pixel_format :=
    @cgl_destroy_pixel_format _ (Sim.externals Sim.healthy);
  apple_glx_find_drawable :=
    @apple_glx_find_drawable _ (Sim.externals Sim.healthy);
  apple_glx_create_drawable :=
    @apple_glx_create_drawable _ (Sim.externals Sim.healthy);
  apple_glx_release_drawable :=
    @apple_glx_release_drawable _ (Sim.externals Sim.healthy);
  apple_glx_destroy_drawable :=
    @apple_glx_destroy_drawable _ (Sim.externals Sim.healthy);
  apple_glx_garbage_collect_drawables :=
    @apple_glx_garbage_collect_drawables _ (Sim.externals Sim.healthy);
  XAppleDRIDestroySurface :=
    @XAppleDRIDestroySurface _ (Sim.externals Sim.healthy);
  xp_attach_gl_context := @xp_attach_gl_context _ (Sim.externals Sim.healthy);
  drawable_at := @drawable_at _ (Sim.externals Sim.healthy)
|}.

(** A drawable manager that cannot create a record, and a native layer
    whose set-current fails with the code [4]. *)
Definition create_drawable_fails : Sim.sim_config :=
  Sim.mk_config 0 0 0 true.
Definition set_current_fails : Sim.sim_config := Sim.mk_config 0 4 0 false.

(** Thread [1] tries a third creation with no native context to be had. *)
Definition creation_failed_state : state Sim.world :=
  final (@apple_glx_create_context _ no_native_context
           1%N 2%positive Sim.dpy 0 0%N None Sim.bound).

(** Thread [3] asks for the drawable [20] for the first context, which is
    bound to the drawable [10], and the record cannot be created. *)
Definition create_drawable_failed_state : state Sim.world :=
  final (@apple_glx_make_current_context _
           (Sim.externals create_drawable_fails)
           3%N Sim.dpy (Some 1%positive) 20%N Sim.bound).

(** The second context is destroyed through its cell while the first is
    bound. *)
Definition second_destroyed : state Sim.world :=
  final (@apple_glx_destroy_context _ (Sim.externals Sim.healthy)
           2%positive Sim.dpy Sim.bound).

(** The reference count of a record of the reference world. *)
Definition references (w : Sim.world) (g : addr) : nat :=
  match Sim.drawables w !! g with
  | Some (_, n) => n
  | None => 0%nat
  end.

End Scenes.

(** * Properties *)

Ltac unfold_prims :=
  unfold field, store_ctx, store_cell, get_context_list, set_context_list,
    set_context_lock in *;
  unfold load_ctx, load_cell, load_drawable, get_mem, put_mem, emit, call,
    ret, abort, fault, bind in *.

Section Registry.

Context {W : Type} `{Externals W}.

(** The list is determined by where it starts. *)
Lemma dlist_functional h prev1 prev2 p l1 l2 :
  dlist h prev1 p l1 -> dlist h prev2 p l2 -> l1 = l2.
Proof.
  revert prev1 prev2 p l2.
  induction l1 as [|a l1 IH]; intros prev1 prev2 p [|b l2]; simpl.
  - done.
  - intros -> [? _]. done.
  - intros [-> _] ?. done.
  - intros [-> (c & Hc & _ & Hl)] [[= <-] (c' & Hc' & _ & Hl')].
    f_equal. rewrite Hc in Hc'. injection Hc' as <-. eauto.
Qed.

Lemma dlist_suffix h prev p x l :
  dlist h prev p (x ++ l) -> exists prev' p', dlist h prev' p' l.
Proof.
  revert prev p. induction x as [|a x IH]; intros prev p; simpl.
  - eauto.
  - intros [_ (c & _ & _ & Hl)]. eauto.
Qed.

Lemma dlist_NoDup h prev p l : dlist h prev p l -> NoDup l.
Proof.
  revert prev p. induction l as [|a l IH]; intros prev p; simpl.
  - constructor.
  - intros [-> (c & Hc & Hp & Hl)]. constructor; [|eauto].
    intros Hin. apply list_elem_of_split in Hin as (x & y & ->).
    destruct (dlist_suffix _ _ _ _ _ Hl) as (prev' & p' & Hs).
    simpl in Hs. destruct Hs as [-> (c' & Hc' & _ & Hy)].
    rewrite Hc in Hc'. injection Hc' as <-.
    pose proof (dlist_functional _ _ _ _ _ _ Hl Hy) as Heq.
    apply (f_equal length) in Heq. rewrite length_app in Heq. simpl in Heq. lia.
Qed.

Lemma dlist_frame_alter h prev p l a f :
  a ∉ l -> dlist h prev p l -> dlist (alter f a h) prev p l.
Proof.
  revert prev p. induction l as [|b l IH]; intros prev p Hn; simpl; [done|].
  intros [-> (c & Hc & Hp & Hl)]. split; [done|].
  exists c. rewrite lookup_alter_ne; [|set_solver].
  split_and!; [done..|]. apply IH; [set_solver|done].
Qed.

(** The predecessor recorded in a node of the list is the node before it. *)
Lemma dlist_previous h prev p x ac y c :
  dlist h prev p (x ++ ac :: y) -> h !! ac = Some c ->
  previous c = match last x with Some q => Some q | None => prev end.
Proof.
  revert prev p. induction x as [|a x IH]; intros prev p; simpl.
  - intros [_ (c' & Hc' & Hp & _)] Hc. congruence.
  - intros [_ (ca & Hca & Hp & Hl)] Hc.
    rewrite (IH _ _ Hl Hc). destruct x as [|b x]; [done|].
    change (last (a :: b :: x)) with (last (b :: x)).
    destruct (last (b :: x)) eqn:E; [done|]. by apply last_None in E.
Qed.

Lemma relink_lookup_other c h a :
  previous c ≠ Some a -> next c ≠ Some a ->
  relink_next c (relink_prev c h) !! a = h !! a.
Proof.
  intros Hp Hn. unfold relink_next, relink_prev.
  destruct (next c) as [n|], (previous c) as [q|];
    rewrite ?lookup_alter_ne; congruence.
Qed.

Lemma dlist_relink_frame c h prev p l :
  (forall q, previous c = Some q -> q ∉ l) ->
  (forall n, next c = Some n -> n ∉ l) ->
  dlist h prev p l -> dlist (relink_next c (relink_prev c h)) prev p l.
Proof.
  intros Hp Hn Hl. unfold relink_next, relink_prev.
  destruct (next c) as [n|], (previous c) as [q|];
    repeat apply dlist_frame_alter; auto.
Qed.

(** Taking [ac] out by the two stores leaves the list of the others. *)
Lemma dlist_unlink h ac c y x prev p :
  h !! ac = Some c ->
  NoDup (x ++ ac :: y) ->
  (forall q, prev = Some q -> q ∉ x ++ ac :: y) ->
  dlist h prev p (x ++ ac :: y) ->
  dlist (relink_next c (relink_prev c h)) prev
        (match x with [] => next c | _ => p end) (x ++ y).
Proof.
  intros Hc. revert prev p.
  induction x as [|a x IH]; intros prev p Hnd Hprev Hl.
  - simpl in *. destruct Hl as [-> (c' & Hc' & Hp & Hy)].
    assert (c' = c) as -> by congruence.
    apply NoDup_cons in Hnd as [Hac Hnd].
    destruct y as [|n y]; simpl in *; [done|].
    destruct Hy as [Hn (cn & Hcn & Hpn & Hy)]. split; [done|].
    apply NoDup_cons in Hnd as [Hny Hnd].
    exists (set_previous prev cn). split_and!.
    + unfold relink_next, relink_prev. rewrite Hn, Hp.
      rewrite lookup_alter_eq.
      destruct prev as [q|]; [|by rewrite Hcn].
      rewrite lookup_alter_ne; [by rewrite Hcn|].
      intros ->. apply (Hprev n); [done|set_solver].
    + done.
    + simpl. apply dlist_relink_frame; [| |done].
      * intros q Hq. rewrite Hp in Hq. specialize (Hprev q Hq). set_solver.
      * intros n' Hn'. rewrite Hn in Hn'. by injection Hn' as <-.
  - simpl in Hl. destruct Hl as [-> (ca & Hca & Hpa & Hl)].
    change ((a :: x) ++ ac :: y) with (a :: (x ++ ac :: y)) in Hnd.
    apply NoDup_cons in Hnd as [Ha Hnd].
    pose proof (dlist_previous _ _ _ _ _ _ _ Hl Hc) as Hpc.
    assert (Hnc : next c ≠ Some a).
    { intros Hn. destruct (dlist_suffix _ _ _ x _ Hl) as (? & ? & Hs).
      simpl in Hs. destruct Hs as [_ (c' & Hc' & _ & Hy)].
      assert (c' = c) as -> by congruence.
      destruct y as [|n y]; simpl in Hy; [congruence|].
      destruct Hy as [Hy _]. rewrite Hn in Hy. injection Hy as <-.
      set_solver. }
    specialize (IH (Some a) (next ca) Hnd).
    simpl. split; [done|].
    destruct x as [|b x].
    + simpl in *. exists (set_next (next c) ca). split_and!.
      * unfold relink_next, relink_prev. rewrite Hpc.
        destruct (next c) as [n|].
        -- rewrite lookup_alter_ne by congruence.
           by rewrite lookup_alter_eq, Hca.
        -- by rewrite lookup_alter_eq, Hca.
      * done.
      * simpl. apply IH; [|done]. intros q [= <-]. done.
    + exists ca. split_and!.
      * rewrite relink_lookup_other; [done| |done].
        rewrite Hpc. destruct (last (b :: x)) as [q|] eqn:E.
        -- intros [= ->]. apply last_Some in E as (l' & E).
           apply Ha. rewrite E, <- app_assoc. apply elem_of_app. right.
           apply list_elem_of_here.
        -- by apply last_None in E.
      * done.
      * apply IH; [|done]. intros q [= <-]. done.
Qed.

Lemma insert_as_alter (h : gmap positive apple_glx_context) p c f :
  h !! p = Some c -> <[p := f c]> h = alter f p h.
Proof.
  intros Hp. apply map_eq. intros i. rewrite lookup_insert, lookup_alter.
  case_decide; subst; [by rewrite Hp|done].
Qed.

(** Lines 143 to 151 on a well-formed list: [ac] leaves it, the others
    stay in order, and only list links change. *)
Lemma unlink_registry (s : state W) ac x y :
  registry (st_mem s) (x ++ ac :: y) ->
  exists m',
    unlink ac s = Done tt (mk_state m' (st_world s) (st_log s)) /\
    registry m' (x ++ y) /\
    context_lock m' = context_lock (st_mem s) /\
    cells m' = cells (st_mem s) /\
    heap m' !! ac = heap (st_mem s) !! ac.
Proof.
  destruct s as [[h hd lk cl] w lg]. unfold registry. simpl. intros Hl.
  pose proof (dlist_NoDup _ _ _ _ Hl) as Hnd.
  destruct (dlist_suffix _ _ _ x _ Hl) as (pv & p' & Hs). simpl in Hs.
  destruct Hs as [_ (c & Hc & Hpv & Hy)].
  pose proof (dlist_previous _ _ _ _ _ _ _ Hl Hc) as Hpc.
  pose proof (dlist_unlink h ac c y x None hd Hc Hnd ltac:(done) Hl) as Hu.
  assert (Hacx : ac ∉ x ++ y).
  { apply NoDup_app in Hnd as (_ & Hd & Hnd).
    apply NoDup_cons in Hnd as [? _].
    intros [?|?]%elem_of_app; [|done]. apply (Hd ac); [done|set_solver]. }
  assert (Hq : forall q, previous c = Some q ->
               exists cq, h !! q = Some cq /\ q ≠ ac).
  { intros q Hq. rewrite Hq in Hpc. destruct (last x) as [q'|] eqn:E; [|done].
    injection Hpc as ->. apply last_Some in E as (x' & ->).
    rewrite <- app_assoc in Hl. destruct (dlist_suffix _ _ _ x' _ Hl)
      as (? & ? & Hs). simpl in Hs. destruct Hs as [_ (cq & Hcq & _ & _)].
    exists cq. split; [done|]. intros ->. apply Hacx. set_solver. }
  assert (Hn : forall n, next c = Some n ->
               exists cn, h !! n = Some cn /\ n ≠ ac /\ previous c ≠ Some n).
  { intros n Hn. destruct y as [|n' y]; simpl in Hy; [congruence|].
    destruct Hy as [Hn' (cn & Hcn & _ & _)]. rewrite Hn in Hn'.
    injection Hn' as <-. exists cn. split_and!; [done| |].
    - intros ->. apply Hacx. set_solver.
    - intros Hp. rewrite Hp in Hpc.
      destruct (last x) as [q'|] eqn:E; [|done]. injection Hpc as <-.
      apply last_Some in E as (x' & ->).
      rewrite <- app_assoc in Hnd. apply NoDup_app in Hnd as (_ & _ & Hnd).
      simpl in Hnd. apply NoDup_cons in Hnd as [Hnd _]. set_solver. }
  exists (mk_memory (relink_next c (relink_prev c h))
                    (match x with [] => next c | _ => hd end) lk cl).
  split_and!; simpl; [|done|done|done|].
  - unfold unlink, relink_next, relink_prev. unfold_prims.
    destruct (previous c) as [q|] eqn:Epc.
    + destruct (Hq q eq_refl) as (cq & Hcq & Hqac).
      assert (x ≠ []) by (intros ->; simpl in Hpc; done).
      destruct (next c) as [n|] eqn:Enc.
      * destruct (Hn n eq_refl) as (cn & Hcn & Hnac & Hnq).
        assert (q ≠ n) by congruence.
        repeat (progress (simpl;
          rewrite ?Hc, ?Epc, ?Enc, ?Hcq, ?Hcn, ?lookup_insert_ne by done)).
        rewrite (insert_as_alter h q cq _ Hcq).
        rewrite (insert_as_alter _ n cn);
          [|by rewrite lookup_alter_ne by done].
        by destruct x.
      * repeat (progress (simpl;
          rewrite ?Hc, ?Epc, ?Enc, ?Hcq, ?lookup_insert_ne by done)).
        rewrite (insert_as_alter h q cq _ Hcq). by destruct x.
    + assert (x = []) as ->.
      { destruct (last x) eqn:E; [done|]. by apply last_None in E. }
      destruct (next c) as [n|] eqn:Enc.
      * destruct (Hn n eq_refl) as (cn & Hcn & Hnac & Hnq).
        repeat (progress (simpl; rewrite ?Hc, ?Epc, ?Enc, ?Hcn)).
        by rewrite (insert_as_alter _ n cn).
      * by repeat (progress (simpl; rewrite ?Hc, ?Epc, ?Enc)).
  - rewrite relink_lookup_other; [done| |].
    + intros Hp. by destruct (Hq _ Hp) as (? & _ & ?).
    + intros Hp. by destruct (Hn _ Hp) as (? & _ & ? & _).
Qed.

End Registry.

(** ** Running the code symbolically *)

(** Finds the innermost scrutinee on which the run is stuck; rewrites it
    when its value is known already, and splits on it otherwise. *)
Ltac split_scrutinee x :=
  lazymatch x with
  | context [match ?y with _ => _ end] => split_scrutinee y
  | _ => first [ match goal with E : x = _ |- _ => rewrite E end
               | rewrite lookup_insert_eq
               | destruct x eqn:? ]
  end.

Ltac exec_step :=
  match goal with
  | |- context [match ?x with _ => _ end] => split_scrutinee x
  end; simpl in *.

Ltac exec := unfold_prims; simpl in *; repeat exec_step.

(** The same, along the one path that the hypotheses determine. *)
Ltac known_scrutinee x :=
  lazymatch x with
  | context [match ?y with _ => _ end] => known_scrutinee y
  | _ => first [ match goal with E : x = _ |- _ => rewrite E end
               | rewrite lookup_insert_eq ]
  end.

Ltac run_step :=
  match goal with
  | |- context [match ?x with _ => _ end] => known_scrutinee x
  end; simpl.

Ltac run := unfold_prims; simpl; repeat run_step.

(** Splits on whether two pointers are the same, wherever a lookup reads a
    heap just written. *)
Ltac map_cases :=
  repeat (match goal with
          | H : context [<[_:=_]> _ !! _] |- _ =>
              rewrite lookup_insert in H; case_decide
          | |- context [<[_:=_]> _ !! _] => rewrite lookup_insert; case_decide
          end; simplify_eq/=).

(** Closes [log' = log ++ ?new] once the run is over. *)
Ltac log_ext :=
  simpl; rewrite <- ?app_assoc;
  first [ reflexivity | symmetry; apply app_nil_r ].

Ltac use_lookups :=
  repeat match goal with
         | H : _ !! _ = _ |- _ => rewrite H
         end.

Section Frames.

Context {W : Type} `{Externals W}.

(** Whatever the list looks like, lines 143 to 151 write list links only. *)
Lemma unlink_frame (s : state W) ac :
  let s' := final (unlink ac s) in
  st_log s' = st_log s /\ st_world s' = st_world s /\
  context_lock (st_mem s') = context_lock (st_mem s) /\
  cells (st_mem s') = cells (st_mem s) /\
  forall p, payload <$> heap (st_mem s') !! p
            = payload <$> heap (st_mem s) !! p.
Proof.
  destruct s as [[h hd lk cl] w lg]. unfold unlink. exec.
  all: split_and!; try done.
  all: intros p'; simplify_eq; map_cases; use_lookups; try done.
Qed.

End Frames.

Section DestroyBlocks.

Context {W : Type} `{Externals W}.

(** Lines 167 to 177 write no memory; their calls tear down, and see the
    memory the block started with. *)
Lemma destroy_attached_log (s : state W) ac dpy :
  let s' := final (destroy_attached ac dpy s) in
  st_mem s' = st_mem s /\
  exists new,
    st_log s' = st_log s ++ new /\
    Forall (fun x => snd (fst x) = st_mem s /\
                     is_teardown (fst (fst x)) = true) new.
Proof.
  unfold destroy_attached. exec.
  all: split; [done|].
  all: eexists; (split; [log_ext|]).
  all: repeat constructor.
Qed.

End DestroyBlocks.

(** The blocks whose effect is known by a lemma stay folded. *)
Ltac block_step :=
  match goal with
  | |- context [unlink ?ac ?s] =>
      let F := fresh "Hframe" in
      let E := fresh "Hrun" in
      pose proof (unlink_frame s ac) as F;
      destruct (unlink ac s) eqn:E; simpl in F;
      destruct F as (? & ? & ? & ? & ?)
  | |- context [destroy_attached ?ac ?dpy ?s] =>
      let F := fresh "Hframe" in
      let E := fresh "Hrun" in
      pose proof (destroy_attached_log s ac dpy) as F;
      destruct (destroy_attached ac dpy s) eqn:E; simpl in F;
      destruct F as (? & ? & ? & ?)
  end; simpl in *.

Ltac exec_blocks :=
  unfold_prims; simpl in *; repeat first [ block_step | exec_step ].

(** Brings the goal to [Forall P new] for the entries [new] of the run. *)
Ltac close_log :=
  repeat match goal with E : st_log _ = _ |- _ => rewrite E; clear E end;
  eexists; split; [log_ext|].

(** From [log' = log ++ new] for a run that is over, what [new] is. *)
Ltac invert_log Hlog :=
  rewrite <- ?app_assoc in Hlog;
  first [ apply app_inv_head in Hlog
        | rewrite <- app_nil_r in Hlog at 1; apply app_inv_head in Hlog ];
  subst.

(** Case analysis on [In x l] for a list [l] that is written out. *)
Ltac split_in Hin :=
  repeat match type of Hin with
         | _ \/ _ => destruct Hin as [Hin|Hin]
         | False => destruct Hin
         end;
  simplify_eq.

Ltac pick_in :=
  simpl; solve [ repeat first [ left; first [ reflexivity | congruence ]
                              | right ] ].

Ltac split_Forall :=
  simpl;
  repeat first [ apply List.Forall_nil | apply List.Forall_cons
               | apply Forall_app_2 ].

Section Destroy.

Context {W : Type} `{Externals W}.

(** C1: whatever the state and however the run ends, no call of
    [apple_glx_destroy_context] that tears something down (drawable
    destroy, surface destroy, pixel-format destroy, native-context destroy)
    is issued while [context_lock] is held.  When the context is on a
    well-formed list, the list is whole when the lock is requested, the
    context is off the list and the lock still held when the unlock is
    requested, and the context is off the list at every teardown call. *)
Theorem destroy_unlinks_under_lock_before_teardown (s : state W) ptr dpy :
  exists new,
    st_log (final (apple_glx_destroy_context ptr dpy s)) = st_log s ++ new /\
    Forall unlocked_teardown new /\
    forall ac x y,
      cells (st_mem s) !! ptr = Some (Some ac) ->
      registry (st_mem s) (x ++ ac :: y) ->
      Forall (unlinked_under_lock x ac y) new.
Proof.
  unfold apple_glx_destroy_context, lock_context_list, unlock_context_list,
    free.
  exec_blocks.
  all: close_log.
  all: split.
  all: try (split_Forall; unfold unlocked_teardown; simpl; try done).
  all: try (intros _;
            match goal with E : st_mem _ = _ |- _ => by rewrite E end).
  all: try (eapply Forall_impl; [eassumption|]; by intros [[? ?] ?] [-> _]).
  all: intros ac' x' y' [= <-] Hreg.
  all: try match goal with
       | E : unlink _ ?s1 = _ ?s0 |- _ =>
           destruct (unlink_registry s1 p x' y' Hreg)
             as (m' & Hm' & Hreg' & _ & _ & _);
           destruct s0; rewrite Hm' in E; simplify_eq/=
       end.
  all: split_Forall; unfold unlinked_under_lock; simpl; try done.
  all: try (intros _;
            match goal with E : st_mem _ = _ |- _ => by rewrite E end).
  all: eapply Forall_impl; [eassumption|].
  all: intros [[[] ?] ?] [-> ?]; simpl in *; try done; intros _; exact Hreg'.
Qed.

Lemma attached_payload (m m' : memory) q :
  payload <$> heap m' !! q = payload <$> heap m !! q ->
  attached m' q = attached m q.
Proof.
  unfold attached.
  destruct (heap m' !! q) as [c'|], (heap m !! q) as [c|]; simpl; try done.
  by intros [= _ _ Hd _ _ _].
Qed.

(** The calls of lines 167 to 177 in a run that gets to the destruction of
    the pixel format. *)
Lemma destroy_attached_calls_run (s : state W) ptr dpy ac c new :
  cells (st_mem s) !! ptr = Some (Some ac) ->
  heap (st_mem s) !! ac = Some c ->
  st_log (final (apple_glx_destroy_context ptr dpy s)) = st_log s ++ new ->
  forall pf e d,
    In (EvCglDestroyPixelFormat pf e) (events new) ->
    drawable c = Some d ->
    exists r last w w' m pre post,
      drawable_at w d = Some r /\
      apple_glx_destroy_drawable d w = (last, w') /\
      new = pre ++ (EvDestroyDrawable d last, m, w) :: post /\
      (forall d' last', ~ In (EvDestroyDrawable d' last') (events pre)) /\
      (last = true ->
       exists m' post',
         post = (EvDestroySurface dpy (screen c) (agd_drawable r), m', w')
                  :: post').
Proof.
  intros Hcell Hc.
  unfold apple_glx_destroy_context, destroy_attached, lock_context_list,
    unlock_context_list, free.
  exec_blocks.
  all: try match goal with
       | F : context [payload],
         E : heap (st_mem ?s0) !! ?q = Some _,
         E' : heap (st_mem ?s1) !! ?q = Some _ |- _ =>
           let G := fresh in
           pose proof (F q) as G; rewrite E, E' in G; simpl in G;
           injection G as ? ? ? ? ? ?
       end.
  all: repeat match goal with
         | E : st_log _ = _ |- _ => rewrite E; clear E
         end.
  all: intros Hlog pf e d Hin Hd; invert_log Hlog.
  all: unfold events in *; simpl in *; split_in Hin.
  all: try congruence.
  all: assert (p = d) as -> by congruence.
  all: eexists _, _, _, _, _, [_; _; _; _], _.
  all: split_and!; [eassumption|eassumption|reflexivity| |].
  all: try (intros d' last' Hin; simpl in Hin; by split_in Hin).
  all: try done.
  all: intros _; eexists _, _;
    match goal with E : screen _ = screen _ |- _ => rewrite E end;
    reflexivity.
Qed.

(** When the surface is torn down, the count of the record was one: no
    other context had it attached when the destruction started. *)
Lemma destroy_last_holder_run (refs : W -> addr -> nat) (s : state W)
    ptr dpy ac c d new :
  counted_references refs ->
  references_cover refs (st_mem s) (st_world s) ->
  cells (st_mem s) !! ptr = Some (Some ac) ->
  heap (st_mem s) !! ac = Some c ->
  drawable c = Some d ->
  st_log (final (apple_glx_destroy_context ptr dpy s)) = st_log s ++ new ->
  (exists dpy' scr id, In (EvDestroySurface dpy' scr id) (events new)) ->
  forall q, q ≠ ac -> attached (st_mem s) q ≠ Some d.
Proof.
  intros R Hcover Hcell Hc Hd Hlog Hin q Hq Hattached.
  assert (Hac : attached (st_mem s) ac = Some d).
  { unfold attached. by rewrite Hc. }
  assert (Htwo : (2 <= refs (st_world s) d)%nat).
  { apply (Hcover d [q; ac]).
    - apply NoDup_cons. split; [by intros ->%list_elem_of_singleton|].
      apply NoDup_singleton.
    - intros p [->|Hp]%elem_of_cons; [done|].
      by apply list_elem_of_singleton in Hp as ->. }
  revert Hlog Hin.
  unfold apple_glx_destroy_context, destroy_attached, lock_context_list,
    unlock_context_list, free.
  exec_blocks.
  all: try match goal with
       | F : context [payload],
         E : heap (st_mem ?s0) !! ?q = Some _,
         E' : heap (st_mem ?s1) !! ?q = Some _ |- _ =>
           let G := fresh in
           pose proof (F q) as G; rewrite E, E' in G; simpl in G;
           injection G as ? ? ? ? ? ?
       end.
  all: repeat match goal with
         | E : st_log _ = _ |- _ => rewrite E; clear E
         end.
  all: intros Hlog (dpy' & scr & id & Hin); invert_log Hlog.
  all: unfold events in *; simpl in *; split_in Hin.
  all: assert (p = d) as -> by congruence.
  all: repeat match goal with
         | E : cgl_set_current_context ?o ?w = (_, ?w') |- _ =>
             let K := fresh "K" in
             pose proof (set_current_keeps_references refs R o w d) as K;
             rewrite E in K; simpl in K; clear E
         | E : cgl_clear_drawable ?o ?w = (_, ?w') |- _ =>
             let K := fresh "K" in
             pose proof (clear_drawable_keeps_references refs R o w d) as K;
             rewrite E in K; simpl in K; clear E
         | E : pthread_mutex_lock ?w = (_, ?w') |- _ =>
             let K := fresh "K" in
             pose proof (lock_keeps_references refs R w d) as K;
             rewrite E in K; simpl in K; clear E
         | E : pthread_mutex_unlock ?w = (_, ?w') |- _ =>
             let K := fresh "K" in
             pose proof (unlock_keeps_references refs R w d) as K;
             rewrite E in K; simpl in K; clear E
         | E : apple_glx_destroy_drawable ?g ?w = (true, ?w') |- _ =>
             let K := fresh "K" in
             pose proof (last_reference refs R g w) as K;
             rewrite E in K; simpl in K; clear E
         end.
  all: repeat match goal with E : st_world _ = _ |- _ => rewrite E in * end.
  all: lia.
Qed.

(** What a destruction leaves of the structs: at every call that tears
    something down they hold what they held, and when it returns the
    struct of the context is gone and the others hold what they held. *)
Lemma destroy_payload_frame (s : state W) ptr dpy ac new :
  cells (st_mem s) !! ptr = Some (Some ac) ->
  st_log (final (apple_glx_destroy_context ptr dpy s)) = st_log s ++ new ->
  Forall (fun x => is_teardown (fst (fst x)) = true ->
                   forall q, attached (snd (fst x)) q
                             = attached (st_mem s) q) new /\
  forall s', apple_glx_destroy_context ptr dpy s = Done tt s' ->
             attached (st_mem s') ac = None /\
             forall q, q ≠ ac ->
                       attached (st_mem s') q = attached (st_mem s) q.
Proof.
  intros Hcell.
  unfold apple_glx_destroy_context, destroy_attached, lock_context_list,
    unlock_context_list, free.
  exec_blocks.
  all: repeat match goal with
         | E : st_log _ = _ |- _ => rewrite E; clear E
         end.
  all: repeat match goal with u : unit |- _ => destruct u end.
  all: intros Hlog; invert_log Hlog.
  all: split; [|intros s' Hdone; simplify_eq/=].
  all: try (split_Forall; simpl; try done; intros _ q;
            apply attached_payload; simpl; done).
  all: split; [unfold attached; simpl; by rewrite lookup_delete_eq|].
  all: intros q Hq; apply attached_payload; simpl.
  all: by rewrite lookup_delete_ne.
Qed.

(** A drawable that a destruction destroys was attached to the context
    of the cell. *)
Lemma destroy_drawable_attached_run (s : state W) ptr dpy new d last :
  st_log (final (apple_glx_destroy_context ptr dpy s)) = st_log s ++ new ->
  In (EvDestroyDrawable d last) (events new) ->
  exists ac, cells (st_mem s) !! ptr = Some (Some ac) /\
             attached (st_mem s) ac = Some d.
Proof.
  unfold apple_glx_destroy_context, destroy_attached, lock_context_list,
    unlock_context_list, free.
  exec_blocks.
  all: repeat match goal with
         | E : st_log _ = _ |- _ => rewrite E; clear E
         end.
  all: intros Hlog Hin; invert_log Hlog.
  all: unfold events in *; simpl in *; split_in Hin.
  all: eexists; split; [reflexivity|].
  all: match goal with
       | F : context [payload] |- attached _ ?q = _ =>
           rewrite <- (attached_payload _ _ q (F q))
       end.
  all: unfold attached;
    match goal with E : heap _ !! _ = Some _ |- _ => by rewrite E end.
Qed.

(** C7: in a run of [apple_glx_destroy_context] on a context whose struct
    is [c], [XAppleDRIDestroySurface] is called if and only if [c] has a
    drawable attached and [apple_glx_destroy_drawable] returned true for
    it; the call gets the display, the screen of [c] and the X id read
    from the drawable record before the record was destroyed.  The
    drawable destroyed is the attached one, and the surface is destroyed
    at most once.  The calls are made: a run that gets to the destruction
    of the pixel format (every run that returns does) on a context with a
    drawable attached has read the record, has called
    [apple_glx_destroy_drawable] on it, once, and, when this returned
    true, has called [XAppleDRIDestroySurface] right after.  With a
    drawable manager that counts references, each context holding one for
    the record it has attached, no other context has the record attached
    when the surface is torn down; once the destruction has returned no
    context has it attached, and a destruction that follows does not
    destroy this drawable again. *)
Theorem destroy_surface_iff_last_reference (s : state W) ptr dpy ac c :
  cells (st_mem s) !! ptr = Some (Some ac) ->
  heap (st_mem s) !! ac = Some c ->
  exists new,
    st_log (final (apple_glx_destroy_context ptr dpy s)) = st_log s ++ new /\
    (forall dpy' scr id,
       In (EvDestroySurface dpy' scr id) (events new) <->
       exists d r m w,
         drawable c = Some d /\ In (EvDestroyDrawable d true, m, w) new /\
         drawable_at w d = Some r /\ id = agd_drawable r /\
         scr = screen c /\ dpy' = dpy) /\
    (forall d last, In (EvDestroyDrawable d last) (events new) ->
                    drawable c = Some d) /\
    (length (List.filter is_destroy_surface (events new)) <= 1)%nat /\
    (forall pf e d,
       In (EvCglDestroyPixelFormat pf e) (events new) ->
       drawable c = Some d ->
       exists r last w w' m pre post,
         drawable_at w d = Some r /\
         apple_glx_destroy_drawable d w = (last, w') /\
         new = pre ++ (EvDestroyDrawable d last, m, w) :: post /\
         (forall d' last', ~ In (EvDestroyDrawable d' last') (events pre)) /\
         (last = true ->
          exists m' post',
            post = (EvDestroySurface dpy (screen c) (agd_drawable r), m', w')
                     :: post')) /\
    (forall refs : W -> addr -> nat,
       counted_references refs ->
       references_cover refs (st_mem s) (st_world s) ->
       forall dpy' scr id m w,
         In (EvDestroySurface dpy' scr id, m, w) new ->
         (forall q, q ≠ ac -> attached m q ≠ drawable c) /\
         forall s',
           apple_glx_destroy_context ptr dpy s = Done tt s' ->
           (forall q, attached (st_mem s') q ≠ drawable c) /\
           forall ptr2 dpy2 new2 d last,
             st_log (final (apple_glx_destroy_context ptr2 dpy2 s'))
               = st_log s' ++ new2 ->
             In (EvDestroyDrawable d last) (events new2) ->
             Some d ≠ drawable c).
Proof.
  intros Hcell Hc.
  assert (exists new,
    st_log (final (apple_glx_destroy_context ptr dpy s)) = st_log s ++ new /\
    (forall dpy' scr id,
       In (EvDestroySurface dpy' scr id) (events new) <->
       exists d r m w,
         drawable c = Some d /\ In (EvDestroyDrawable d true, m, w) new /\
         drawable_at w d = Some r /\ id = agd_drawable r /\
         scr = screen c /\ dpy' = dpy) /\
    (forall d last, In (EvDestroyDrawable d last) (events new) ->
                    drawable c = Some d) /\
    (length (List.filter is_destroy_surface (events new)) <= 1)%nat)
    as (new & Hlog & Hiff & Hattached & Honce).
  { revert Hcell Hc.
    unfold apple_glx_destroy_context, destroy_attached, lock_context_list,
      unlock_context_list, free.
    intros Hcell Hc.
    exec_blocks.
    all: try match goal with
         | F : context [payload],
           E : heap (st_mem ?s0) !! ?q = Some _,
           E' : heap (st_mem ?s1) !! ?q = Some _ |- _ =>
             let G := fresh in
             pose proof (F q) as G; rewrite E, E' in G; simpl in G;
             injection G as ? ? ? ? ? ?
         end.
    all: close_log.
    all: unfold events; simpl; split_and!; [| |lia].
    all: try (intros d last Hin; split_in Hin; congruence).
    all: intros dpy' scr id; split;
      [intros Hin; split_in Hin
      |intros (d & r & m & w' & Hd & Hin & Hr & -> & -> & ->); split_in Hin].
    all: try pick_in.
    all: match goal with
         | E : apple_glx_destroy_drawable ?p ?w2 = (true, _),
           D : drawable_at ?w2 ?p = Some ?r |- _ => exists p, r; eexists _, w2
         end.
    all: split_and!; try congruence; try done; pick_in. }
  exists new. split_and!; [done..| |].
  - by apply (destroy_attached_calls_run s ptr dpy ac c new).
  - intros refs R Hcover dpy' scr id m w Hin.
    assert (Hev : In (EvDestroySurface dpy' scr id) (events new)).
    { unfold events.
      by apply (in_map (fun x => fst (fst x)) new
                  (EvDestroySurface dpy' scr id, m, w)). }
    destruct (proj1 (Hiff dpy' scr id) Hev) as (d & _ & _ & _ & Hd & _).
    rewrite Hd.
    pose proof (destroy_last_holder_run refs s ptr dpy ac c d new R Hcover
                  Hcell Hc Hd Hlog ltac:(by eexists _, _, _)) as Hlast.
    destruct (destroy_payload_frame s ptr dpy ac new Hcell Hlog)
      as [Hcalls Hdone].
    split.
    + intros q Hq. rewrite List.Forall_forall in Hcalls.
      pose proof (Hcalls _ Hin eq_refl q) as Hsame. simpl in Hsame.
      rewrite Hsame. by apply Hlast.
    + intros s' Hrun. destruct (Hdone s' Hrun) as [Hgone Hothers].
      assert (Hnone : forall q, attached (st_mem s') q ≠ Some d).
      { intros q. destruct (decide (q = ac)) as [->|Hq].
        - by rewrite Hgone.
        - rewrite (Hothers q Hq). by apply Hlast. }
      split; [done|].
      intros ptr2 dpy2 new2 d2 last Hlog2 Hin2 [= ->].
      destruct (destroy_drawable_attached_run s' ptr2 dpy2 new2 d last
                  Hlog2 Hin2) as (ac2 & _ & Hac2).
      by destruct (Hnone ac2).
Qed.

Lemma destroy_null_run (s : state W) ptr dpy :
  cells (st_mem s) !! ptr = Some None ->
  apple_glx_destroy_context ptr dpy s = Done tt s.
Proof.
  intros Hcell. unfold apple_glx_destroy_context. unfold_prims.
  by rewrite Hcell.
Qed.

(** C9: [apple_glx_destroy_context] on a cell that holds [NULL] returns at
    once: the memory (list, lock, structs, cells), the world of the
    collaborators and the log of calls are what they were. *)
Theorem destroy_null_handle_is_noop (s : state W) ptr dpy :
  cells (st_mem s) !! ptr = Some None ->
  apple_glx_destroy_context ptr dpy s = Done tt s /\
  st_mem (final (apple_glx_destroy_context ptr dpy s)) = st_mem s /\
  st_world (final (apple_glx_destroy_context ptr dpy s)) = st_world s /\
  st_log (final (apple_glx_destroy_context ptr dpy s)) = st_log s.
Proof. intros Hcell. by rewrite (destroy_null_run s ptr dpy Hcell). Qed.

(** C10: when [apple_glx_destroy_context] returns from destroying the
    context [ac] held by the cell [ptr], the cell holds [NULL] and the
    struct is freed, so that a second call through the same cell returns
    at once and changes nothing. *)
Theorem destroy_clears_handle (s s' : state W) ptr dpy ac :
  cells (st_mem s) !! ptr = Some (Some ac) ->
  apple_glx_destroy_context ptr dpy s = Done tt s' ->
  cells (st_mem s') !! ptr = Some None /\
  heap (st_mem s') !! ac = None /\
  apple_glx_destroy_context ptr dpy s' = Done tt s'.
Proof.
  intros Hcell Hdone.
  assert (cells (st_mem s') !! ptr = Some None /\
          heap (st_mem s') !! ac = None) as [Hnull Hfree].
  { revert Hdone.
    unfold apple_glx_destroy_context, lock_context_list,
      unlock_context_list, free.
    exec_blocks; intros Hdone; simplify_eq/=.
    by rewrite lookup_insert_eq, lookup_delete_eq. }
  split_and!; [done|done|]. by apply destroy_null_run.
Qed.

End Destroy.

Section MakeCurrent.

Context {W : Type} `{Externals W}.

(** C2, amended: when the attach call of a make-current returns an error
    code, [apple_glx_make_current_context] returns true, and the only
    change to memory is that the [drawable] field of the context points to
    the record that the drawable manager found or created in this call
    (the context is not left without a drawable); set-current is not
    called.  The drawable that was attached before has been released: the
    release is the first call of the run and the only release; a context
    with nothing attached releases nothing. *)
Theorem make_current_attach_failure (s : state W) self dpy ac id new :
  st_log (final (apple_glx_make_current_context self dpy (Some ac) id s))
    = st_log s ++ new ->
  attach_failed (events new) = true ->
  exists s' g c,
    apple_glx_make_current_context self dpy (Some ac) id s = Done true s' /\
    heap (st_mem s) !! ac = Some c /\
    st_mem s' = with_heap (<[ac := set_drawable (Some g) c]> (heap (st_mem s)))
                          (st_mem s) /\
    resolved g (events new) /\
    (forall obj err, ~ In (EvCglSetCurrentContext obj err) (events new)) /\
    match drawable c with
    | Some d =>
        exists tail,
          new = (EvReleaseDrawable d, st_mem s, st_world s) :: tail /\
          forall d', ~ In (EvReleaseDrawable d') (events tail)
    | None => forall d', ~ In (EvReleaseDrawable d') (events new)
    end.
Proof.
  unfold apple_glx_make_current_context, attach_and_set_current.
  exec.
  all: intros Hlog Hfail; invert_log Hlog.
  all: unfold events in *; simpl in *; rewrite ?orb_false_r in Hfail.
  all: try congruence.
  all: eexists _, _, _; split_and!; [reflexivity|reflexivity| | | |].
  all: try (intros obj err Hin; by split_in Hin).
  all: try (unfold with_heap; simpl; by rewrite ?insert_insert_eq).
  all: try (unfold resolved;
    first [ left; eexists _, _; pick_in | right; eexists _, _, _; pick_in ]).
  all: match goal with E : drawable _ = _ |- _ => rewrite E end.
  all: try (eexists; split; [reflexivity|]; simpl).
  all: intros d' Hin; by split_in Hin.
Qed.

(** C3, amended: a make-current with the target [None] that returns writes
    no memory: the [drawable] field of the context keeps its value, and a
    context that had a drawable attached still has it.  When it succeeds,
    its calls are the native clear-drawable and set-current on the native
    context, both without error. *)
Theorem make_current_none_keeps_memory (s s' : state W) self dpy ac b :
  apple_glx_make_current_context self dpy (Some ac) None_XID s = Done b s' ->
  st_mem s' = st_mem s /\
  attached (st_mem s') ac = attached (st_mem s) ac /\
  exists c,
    heap (st_mem s) !! ac = Some c /\
    (b = false ->
     exists w,
       st_log s' = st_log s ++
         [(EvCglClearDrawable (context_obj c) 0, st_mem s, st_world s);
          (EvCglSetCurrentContext (context_obj c) 0, st_mem s, w)]).
Proof.
  unfold apple_glx_make_current_context. exec.
  all: intros Hdone; simplify_eq/=.
  all: split_and!; [done|done|].
  all: eexists; split; [done|]; intros Hb; try done.
  all: repeat match goal with
         | E : negb (_ =? 0) = false |- _ =>
             apply negb_false_iff, Z.eqb_eq in E; subst
         end.
  all: eexists; by rewrite <- app_assoc.
Qed.

(** C4, amended: after a successful make-current with a target drawable
    other than [None], [thread_id] is the calling thread; after a
    successful make-current with the target [None], [thread_id] is what it
    was. *)
Theorem make_current_success_thread (s s' : state W) self dpy ac id :
  apple_glx_make_current_context self dpy (Some ac) id s = Done false s' ->
  exists c c',
    heap (st_mem s) !! ac = Some c /\
    heap (st_mem s') !! ac = Some c' /\
    thread_id c' = if (id =? None_XID)%N then thread_id c else self.
Proof.
  unfold apple_glx_make_current_context, attach_and_set_current. exec.
  all: intros Hdone; simplify_eq/=.
  all: eexists _, _; split_and!; [done| |];
    rewrite ?lookup_insert_eq; done.
Qed.

Lemma make_current_log (s : state W) self dpy ac id :
  exists new,
    st_log (final (apple_glx_make_current_context self dpy (Some ac) id s))
      = st_log s ++ new /\
    Forall (no_double_attach ac) new.
Proof.
  unfold apple_glx_make_current_context, attach_and_set_current. exec.
  all: close_log.
  all: split_Forall; unfold no_double_attach, attached; simpl.
  all: rewrite ?lookup_insert_eq; try done.
  all: match goal with E : _ !! _ = _ |- _ => by rewrite E end.
Qed.

Lemma make_current_each_log (s : state W) self dpy ac targets :
  exists new,
    st_log (final (make_current_each self dpy ac targets s))
      = st_log s ++ new /\
    Forall (no_double_attach ac) new.
Proof.
  revert s. induction targets as [|id rest IH]; intros s; simpl.
  - exists []. by rewrite app_nil_r.
  - destruct (make_current_log s self dpy ac id) as (new1 & Hlog1 & Hok1).
    unfold bind at 1.
    destruct (apple_glx_make_current_context self dpy (Some ac) id s)
      as [b s1|s1|s1|s1] eqn:Hrun; simpl in *; eauto.
    destruct (IH s1) as (new2 & Hlog2 & Hok2).
    exists (new1 ++ new2). split; [|by apply Forall_app_2].
    rewrite app_assoc, <- Hlog1, <- Hlog2. unfold bind, ret.
    by destruct (make_current_each self dpy ac rest s1).
Qed.

Lemma make_current_switch (s : state W) self dpy ac id d :
  dpy ≠ NULL -> id ≠ None_XID -> attached (st_mem s) ac = Some d ->
  exists r m w tail,
    st_log (final (apple_glx_make_current_context self dpy (Some ac) id s))
      = st_log s ++ (EvReleaseDrawable d, st_mem s, st_world s)
                 :: (EvFindDrawable dpy id r, m, w) :: tail /\
    attached m ac = None.
Proof.
  intros Hdpy%N.eqb_neq Hid%N.eqb_neq. unfold attached.
  destruct (heap (st_mem s) !! ac) as [c|] eqn:Hc; [|done]. intros Hd.
  unfold apple_glx_make_current_context, attach_and_set_current.
  rewrite Hdpy, Hid. exec.
  all: eexists _, _, _, _; (split; [log_ext|]).
  all: simpl; by rewrite lookup_insert_eq.
Qed.

Lemma is_current_attached (s s' : state W) ac id b :
  apple_glx_is_current_drawable (Some ac) id s = Done b s' ->
  exists d, attached (st_mem s) ac = Some d.
Proof.
  unfold apple_glx_is_current_drawable, attached. exec; intros; by eauto.
Qed.

Lemma make_current_rebind (s : state W) self dpy ac id d :
  healthy_layer ->
  dpy ≠ NULL -> id ≠ None_XID -> attached (st_mem s) ac = Some d ->
  exists s1 new,
    apple_glx_make_current_context self dpy (Some ac) id s = Done false s1 /\
    st_log s1 = st_log s ++ new /\
    full_cycle dpy ac id (events new) /\
    apple_glx_is_current_drawable (Some ac) id s1 = Done true s1.
Proof.
  intros Hh Hdpy%N.eqb_neq Hid%N.eqb_neq. unfold attached.
  destruct (heap (st_mem s) !! ac) as [c|] eqn:Hc; [|done]. intros Hd.
  destruct (apple_glx_release_drawable d (st_world s)) as [[] w1] eqn:E1.
  destruct (apple_glx_find_drawable dpy id w1) as [[g|] w2] eqn:E2.
  - destruct (find_gives_record Hh _ _ _ _ _ E2) as (r & Hr & Hid').
    destruct (attach_succeeds Hh (context_obj c) (agd_surface_id r) w2)
      as (w3 & E3 & K3).
    destruct (set_current_succeeds Hh (context_obj c) w3) as (w4 & E4 & K4).
    unfold apple_glx_make_current_context, attach_and_set_current. run.
    eexists _, _. split_and!; [reflexivity|log_ext| |].
    + exists d, (Some g), [], (context_obj c), (agd_surface_id r). done.
    + unfold apple_glx_is_current_drawable. run.
      rewrite K4, K3, Hr. by rewrite Hid', N.eqb_refl.
  - destruct (create_gives_record Hh dpy ac (set_drawable None c) id w2)
      as (g & w2' & r & E2' & Hr & Hid').
    destruct (attach_succeeds Hh (context_obj c) (agd_surface_id r) w2')
      as (w3 & E3 & K3).
    destruct (set_current_succeeds Hh (context_obj c) w3) as (w4 & E4 & K4).
    unfold apple_glx_make_current_context, attach_and_set_current. run.
    eexists _, _. split_and!; [reflexivity|log_ext| |].
    + exists d, None, [EvCreateDrawable dpy ac id false (Some g)],
        (context_obj c), (agd_surface_id r). split; [done|]. by exists g.
    + unfold apple_glx_is_current_drawable. run.
      rewrite K4, K3, Hr. by rewrite Hid', N.eqb_refl.
Qed.

(** C5: in every sequence of make-current calls on a context, a drawable
    is looked up or created only while the context has none attached, and
    what is released is what was attached.  A call with a target other
    than [None] on a context with the drawable [d] attached first releases
    [d], and has set the [drawable] field to [NULL] when it looks the
    target up. *)
Theorem make_current_no_double_attach self dpy ac :
  (forall (s : state W) targets,
     exists new,
       st_log (final (make_current_each self dpy ac targets s))
         = st_log s ++ new /\
       Forall (no_double_attach ac) new) /\
  (forall (s : state W) id d,
     dpy ≠ NULL -> id ≠ None_XID -> attached (st_mem s) ac = Some d ->
     exists r m w tail,
       st_log (final (apple_glx_make_current_context self dpy (Some ac) id s))
         = st_log s ++ (EvReleaseDrawable d, st_mem s, st_world s)
                    :: (EvFindDrawable dpy id r, m, w) :: tail /\
       attached m ac = None).
Proof.
  split.
  - intros s targets. apply make_current_each_log.
  - intros s id d. apply make_current_switch.
Qed.

(** C8: with collaborators that do not fail, two make-current calls in a
    row for the drawable that the context is bound to both return false,
    both go through the whole cycle (release, lookup, creation if the
    lookup found nothing, attach, set-current), and both leave the context
    bound to that drawable. *)
Theorem make_current_twice_rebinds (s : state W) self dpy ac id :
  healthy_layer ->
  dpy ≠ NULL -> id ≠ None_XID ->
  apple_glx_is_current_drawable (Some ac) id s = Done true s ->
  exists s1 s2 new1 new2,
    apple_glx_make_current_context self dpy (Some ac) id s = Done false s1 /\
    apple_glx_make_current_context self dpy (Some ac) id s1 = Done false s2 /\
    st_log s1 = st_log s ++ new1 /\ st_log s2 = st_log s1 ++ new2 /\
    full_cycle dpy ac id (events new1) /\
    full_cycle dpy ac id (events new2) /\
    apple_glx_is_current_drawable (Some ac) id s1 = Done true s1 /\
    apple_glx_is_current_drawable (Some ac) id s2 = Done true s2.
Proof.
  intros Hh Hdpy Hid Hbound.
  destruct (is_current_attached _ _ _ _ _ Hbound) as [d Hd].
  destruct (make_current_rebind s self dpy ac id d Hh Hdpy Hid Hd)
    as (s1 & new1 & Hrun1 & Hlog1 & Hcycle1 & Hbound1).
  destruct (is_current_attached _ _ _ _ _ Hbound1) as [d1 Hd1].
  destruct (make_current_rebind s1 self dpy ac id d1 Hh Hdpy Hid Hd1)
    as (s2 & new2 & Hrun2 & Hlog2 & Hcycle2 & Hbound2).
  by exists s1, s2, new1, new2.
Qed.

End MakeCurrent.

Section Lookup.

Context {W : Type} `{Externals W}.

(** The loop and what follows it, from a node of a well-formed list on,
    with the lock held. *)
Lemma scan_context_list_spec uid l :
  forall fuel prev p (s : state W) w',
    dlist (heap (st_mem s)) prev p l ->
    (length l <= fuel)%nat ->
    pthread_mutex_unlock (st_world s) = (0, w') ->
    (forall q c g, q ∈ l -> heap (st_mem s) !! q = Some c ->
                   drawable c = Some g ->
                   is_Some (drawable_at (st_world s) g)) ->
    bind (scan_context_list fuel uid p)
         (fun r => match r with
                   | Some found => ret (Some found)
                   | None => do _ <- unlock_context_list; ret None
                   end) s
    = Done (first_owner (heap (st_mem s)) (st_world s) uid l)
           (mk_state (with_context_lock false (st_mem s)) w'
              (st_log s
               ++ map (fun q => (EvExamine q, st_mem s, st_world s))
                      (examined (heap (st_mem s)) (st_world s) uid l)
               ++ [(EvMutexUnlock 0, st_mem s, st_world s)])).
Proof.
  induction l as [|a l IH]; intros fuel prev p s w' Hl Hfuel Hunlock Hvalid.
  - simpl in Hl. subst p. destruct fuel; simpl.
    all: unfold unlock_context_list; run; done.
  - simpl in Hl. destruct Hl as [-> (c & Hc & _ & Hl)].
    destruct fuel as [|fuel]; [simpl in Hfuel; lia|].
    simpl in Hfuel. simpl scan_context_list.
    simpl first_owner. simpl examined. unfold owner_of. rewrite Hc.
    specialize (IH fuel (Some a) (next c)
                  (mk_state (st_mem s) (st_world s)
                            (st_log s ++ [(EvExamine a, st_mem s, st_world s)]))
                  w' Hl ltac:(lia) Hunlock).
    simpl in IH. rewrite <- app_assoc in IH.
    assert (Hv : forall q c g, q ∈ l -> heap (st_mem s) !! q = Some c ->
                   drawable c = Some g ->
                   is_Some (drawable_at (st_world s) g)).
    { intros q c' g Hq. apply Hvalid. by right. }
    specialize (IH Hv).
    destruct (drawable c) as [g|] eqn:Hd.
    + destruct (Hvalid a c g ltac:(by left) Hc Hd) as [r Hr]. rewrite Hr.
      destruct (agd_uid r =? uid)%N eqn:Hhit.
      * unfold unlock_context_list. run. by rewrite <- app_assoc.
      * unfold bind in IH |- *. unfold_prims. simpl. rewrite Hc. simpl.
        rewrite Hd. simpl. rewrite Hr. simpl. rewrite Hhit. simpl.
        rewrite Hc. simpl. exact IH.
    + unfold bind in IH |- *. unfold_prims. simpl. rewrite Hc. simpl.
      rewrite Hd. simpl. rewrite Hc. simpl. exact IH.
Qed.

Lemma owner_of_Some h (w : W) uid p sid obj :
  owner_of h w uid p = Some (sid, obj) <->
  exists c g r,
    h !! p = Some c /\ drawable c = Some g /\ drawable_at w g = Some r /\
    agd_uid r = uid /\ sid = agd_surface_id r /\ obj = context_obj c.
Proof.
  unfold owner_of. split.
  - destruct (h !! p) as [c|]; [|done].
    destruct (drawable c) as [g|] eqn:Hg; [|done].
    destruct (drawable_at w g) as [r|] eqn:Hr; [|done].
    destruct (agd_uid r =? uid)%N eqn:E; [|done].
    intros [= <- <-]. apply N.eqb_eq in E. by exists c, g, r.
  - intros (c & g & r & -> & -> & -> & <- & -> & ->).
    by rewrite N.eqb_refl.
Qed.

Lemma owner_of_None h (w : W) uid p :
  owner_of h w uid p = None <->
  forall c g r, h !! p = Some c -> drawable c = Some g ->
                drawable_at w g = Some r -> agd_uid r ≠ uid.
Proof.
  unfold owner_of. split.
  - intros Hn c g r Hc Hg Hr. rewrite Hc, Hg, Hr in Hn.
    destruct (agd_uid r =? uid)%N eqn:E; [done|]. by apply N.eqb_neq.
  - intros Hn. destruct (h !! p) as [c|]; [|done].
    destruct (drawable c) as [g|] eqn:Hg; [|done].
    destruct (drawable_at w g) as [r|] eqn:Hr; [|done].
    destruct (agd_uid r =? uid)%N eqn:E; [|done].
    apply N.eqb_eq in E. by destruct (Hn c g r).
Qed.

Lemma first_owner_None h (w : W) uid l :
  first_owner h w uid l = None <->
  forall p, p ∈ l -> owner_of h w uid p = None.
Proof.
  induction l as [|a l IH]; simpl.
  - split; [|done]. intros _ p Hp. by apply not_elem_of_nil in Hp.
  - destruct (owner_of h w uid a) as [fa|] eqn:E.
    + split; [done|]. intros Hn. rewrite Hn in E; [done|]. by left.
    + rewrite IH. split.
      * intros Hn p [->|Hp]%elem_of_cons; auto.
      * intros Hn p Hp. apply Hn. by right.
Qed.

Lemma first_owner_Some h (w : W) uid l found :
  first_owner h w uid l = Some found <->
  exists x p y,
    l = x ++ p :: y /\
    (forall q, q ∈ x -> owner_of h w uid q = None) /\
    owner_of h w uid p = Some found.
Proof.
  induction l as [|a l IH]; simpl.
  - split; [done|]. intros (x & p & y & Hl & _). by destruct x.
  - destruct (owner_of h w uid a) as [fa|] eqn:E.
    + split.
      * intros [= ->]. exists [], a, l. split_and!; [done| |done].
        intros q Hq. by apply not_elem_of_nil in Hq.
      * intros (x & p & y & Hl & Hx & Hp). destruct x as [|b x].
        -- injection Hl as -> ->. congruence.
        -- injection Hl as -> ->. rewrite Hx in E; [done|]. by left.
    + rewrite IH. split.
      * intros (x & p & y & -> & Hx & Hp). exists (a :: x), p, y.
        split_and!; [done| |done].
        intros q [->|Hq]%elem_of_cons; auto.
      * intros (x & p & y & Hl & Hx & Hp). destruct x as [|b x].
        -- injection Hl as -> ->. congruence.
        -- injection Hl as -> ->. exists x, p, y. split_and!; [done| |done].
           intros q Hq. apply Hx. by right.
Qed.

(** C6: on a well-formed list [l] whose attached drawable records are
    readable, with enough fuel for [l] and a mutex that works,
    [apple_glx_get_surface_from_uid] returns; its calls are the lock, then
    one examination per context up to the first match, each with the lock
    held, then the unlock, and the lock is clear in the end.  It returns
    the surface id and the native context of the first context of [l]
    whose attached drawable has the uid, and not-found exactly when no
    context of [l] has an attached drawable with the uid. *)
Theorem get_surface_from_uid_spec (s : state W) uid l fuel w1 w2 :
  registry (st_mem s) l ->
  (length l <= fuel)%nat ->
  pthread_mutex_lock (st_world s) = (0, w1) ->
  pthread_mutex_unlock w1 = (0, w2) ->
  (forall q c g, q ∈ l -> heap (st_mem s) !! q = Some c ->
                 drawable c = Some g -> is_Some (drawable_at w1 g)) ->
  let h := heap (st_mem s) in
  let locked := with_context_lock true (st_mem s) in
  apple_glx_get_surface_from_uid fuel uid s
    = Done (first_owner h w1 uid l)
        (mk_state (with_context_lock false (st_mem s)) w2
           (st_log s
            ++ [(EvMutexLock 0, st_mem s, st_world s)]
            ++ map (fun q => (EvExamine q, locked, w1)) (examined h w1 uid l)
            ++ [(EvMutexUnlock 0, locked, w1)])) /\
  (forall sid obj,
     first_owner h w1 uid l = Some (sid, obj) <->
     exists x p y c g r,
       l = x ++ p :: y /\
       (forall q, q ∈ x -> owner_of h w1 uid q = None) /\
       h !! p = Some c /\ drawable c = Some g /\ drawable_at w1 g = Some r /\
       agd_uid r = uid /\ sid = agd_surface_id r /\ obj = context_obj c) /\
  (first_owner h w1 uid l = None <->
   forall p c g r, p ∈ l -> h !! p = Some c -> drawable c = Some g ->
                   drawable_at w1 g = Some r -> agd_uid r ≠ uid).
Proof.
  intros Hreg Hfuel Hlock Hunlock Hvalid h locked. split_and!.
  - unfold apple_glx_get_surface_from_uid, lock_context_list.
    pose proof (scan_context_list_spec uid l fuel None
      (context_list (st_mem s))
      (mk_state locked w1
                (st_log s ++ [(EvMutexLock 0, st_mem s, st_world s)]))
      w2 Hreg Hfuel Hunlock Hvalid) as Hscan.
    simpl in Hscan. rewrite <- app_assoc in Hscan.
    unfold bind at 1. unfold bind at 1. unfold call. rewrite Hlock. simpl.
    unfold set_context_lock, get_mem, put_mem. unfold bind at 1. simpl.
    unfold bind at 1. unfold get_context_list, get_mem, ret.
    unfold bind at 1. simpl. exact Hscan.
  - intros sid obj. rewrite first_owner_Some. split.
    + intros (x & p & y & Hl & Hx & Hp).
      apply owner_of_Some in Hp as (c & g & r & Hc & Hg & Hr & Hu & Hs & Ho).
      by exists x, p, y, c, g, r.
    + intros (x & p & y & c & g & r & Hl & Hx & Hc & Hg & Hr & Hu & Hs & Ho).
      exists x, p, y. split_and!; [done..|].
      apply owner_of_Some. by exists c, g, r.
  - rewrite first_owner_None. split.
    + intros Hn p c g r Hp. by apply owner_of_None, Hn.
    + intros Hn p Hp. apply owner_of_None. intros c g r. by apply Hn.
Qed.

End Lookup.

(** * The reference world at work *)

(** The reference world with no failure configured is a healthy layer. *)
Lemma sim_healthy_layer : @healthy_layer Sim.world (Sim.externals Sim.healthy).
Proof.
  split.
  - intros dpy id w g w'. simpl. unfold Sim.find.
    destruct (Sim.drawables w !! Sim.record_addr id) as [[r n]|] eqn:E;
      [|done].
    destruct (agd_drawable r =? id)%N eqn:Eid; [|done].
    intros [= <- <-]. exists r. simpl. rewrite lookup_insert_eq.
    split; [done|]. by apply N.eqb_eq.
  - intros dpy ac c id w. simpl. eexists _, _, _. split; [reflexivity|].
    simpl. by rewrite lookup_insert_eq.
  - intros obj sid w. exists w. done.
  - intros obj w. simpl. eexists. split; [reflexivity|]. done.
Qed.

(** The list of the scenario: the second context in front of the first. *)
Lemma sim_registry_bound : registry (st_mem Sim.bound) [2%positive; 1%positive].
Proof.
  unfold registry. simpl. split; [by vm_compute|].
  eexists. split; [by vm_compute|]. split; [done|]. simpl.
  split; [done|]. eexists. split; [by vm_compute|]. done.
Qed.

(** C1, at work: the first context of the scenario is destroyed. *)
Lemma destroy_unlinks_under_lock_before_teardown_witness :
  exists new,
    st_log (final (@apple_glx_destroy_context _ (Sim.externals Sim.healthy)
                     1%positive Sim.dpy Sim.bound))
      = st_log Sim.bound ++ new /\
    Forall unlocked_teardown new /\
    Forall (unlinked_under_lock [2%positive] 1%positive []) new /\
    events new =
      [EvCglSetCurrentContext 0%N 0; EvMutexLock 0; EvMutexUnlock 0;
       EvCglClearDrawable 2%N 0; EvDestroyDrawable 11%positive true;
       EvDestroySurface 7%N 0 10%N; EvCglDestroyPixelFormat 1%N 0;
       EvCglDestroyContext 2%N 0; EvFree 1%positive; EvGarbageCollect 7%N].
Proof.
  destruct (@destroy_unlinks_under_lock_before_teardown
              _ (Sim.externals Sim.healthy) Sim.bound 1%positive Sim.dpy)
    as (new & Hlog & Hteardown & Hreg).
  exists new. split_and!; [done|done| |].
  - apply Hreg; [by vm_compute|]. apply sim_registry_bound.
  - apply (f_equal (drop (length (st_log Sim.bound)))) in Hlog.
    rewrite drop_app_length in Hlog. subst new. by vm_compute.
Defined.

(** The reference world counts references as the spec has it. *)
Lemma sim_counted_references :
  @counted_references Sim.world (Sim.externals Sim.healthy)
    Scenes.references.
Proof.
  split; simpl; try done.
  intros g w. unfold Scenes.references, Sim.unref.
  destruct (Sim.drawables w !! g) as [[r [|[|n]]]|]; simpl; try done; lia.
Qed.

(** In the scenario, the record of the drawable [10] is counted once, and
    the first context is the one that has it attached. *)
Lemma sim_references_cover_bound :
  @references_cover Sim.world Scenes.references
    (st_mem Sim.bound) (st_world Sim.bound).
Proof.
  assert (Hheap : forall p g, attached (st_mem Sim.bound) p = Some g ->
                              p = 1%positive /\ g = 11%positive).
  { intros p g. unfold attached.
    assert (Hh : heap (st_mem Sim.bound)
                 = <[1%positive := Sim.first_struct]>
                     (<[2%positive := mk_context 4%N 3%N None 1%N 0 false
                                        None (Some 1%positive)]> ∅))
      by (vm_compute; reflexivity).
    rewrite Hh. clear Hh.
    destruct (decide (p = 1%positive)) as [->|H1].
    - rewrite lookup_insert_eq. simpl. intros [= <-]. done.
    - rewrite lookup_insert_ne by done.
      destruct (decide (p = 2%positive)) as [->|H2].
      + rewrite lookup_insert_eq. done.
      + rewrite lookup_insert_ne by done. by rewrite lookup_empty. }
  intros g l Hnd Hl.
  destruct l as [|p [|q l]]; simpl.
  - lia.
  - destruct (Hheap p g (Hl p ltac:(by left))) as [-> ->].
    vm_compute. lia.
  - destruct (Hheap p g (Hl p ltac:(by left))) as [-> ->].
    destruct (Hheap q _ (Hl q ltac:(right; by left))) as [-> _].
    apply NoDup_cons in Hnd as [Hnd _]. destruct Hnd. by left.
Qed.

(** C7, at work: the drawable of the destroyed context had one reference
    left, and its surface is destroyed. *)
Lemma destroy_surface_iff_last_reference_witness :
  cells (st_mem Sim.bound) !! 1%positive = Some (Some 1%positive) /\
  heap (st_mem Sim.bound) !! 1%positive = Some Sim.first_struct /\
  exists new,
    st_log Sim.destroyed = st_log Sim.bound ++ new /\
    (forall dpy' scr id,
       In (EvDestroySurface dpy' scr id) (events new) <->
       exists d r m w,
         drawable Sim.first_struct = Some d /\
         In (EvDestroyDrawable d true, m, w) new /\
         @drawable_at _ (Sim.externals Sim.healthy) w d = Some r /\
         id = agd_drawable r /\
         scr = screen Sim.first_struct /\ dpy' = Sim.dpy) /\
    (forall d last, In (EvDestroyDrawable d last) (events new) ->
                    drawable Sim.first_struct = Some d) /\
    (length (List.filter is_destroy_surface (events new)) <= 1)%nat /\
    (exists r m w w' pre m' post',
       @drawable_at _ (Sim.externals Sim.healthy) w 11%positive = Some r /\
       @apple_glx_destroy_drawable _ (Sim.externals Sim.healthy)
         11%positive w = (true, w') /\
       new = pre ++ (EvDestroyDrawable 11%positive true, m, w)
                 :: (EvDestroySurface Sim.dpy 0 (agd_drawable r), m', w')
                 :: post') /\
    (forall q, attached (st_mem Sim.destroyed) q ≠ Some 11%positive) /\
    (forall ptr2 dpy2 new2 d last,
       st_log (final (@apple_glx_destroy_context _
                        (Sim.externals Sim.healthy)
                        ptr2 dpy2 Sim.destroyed))
         = st_log Sim.destroyed ++ new2 ->
       In (EvDestroyDrawable d last) (events new2) ->
       d ≠ 11%positive).
Proof.
  split; [by vm_compute|]. split; [by vm_compute|].
  destruct (@destroy_surface_iff_last_reference
              _ (Sim.externals Sim.healthy) Sim.bound 1%positive Sim.dpy
              1%positive Sim.first_struct)
    as (new & Hlog & Hiff & Hattached & Honce & Hcalls & Hrefs);
    [by vm_compute|by vm_compute|].
  assert (Hnew : new = drop (length (st_log Sim.bound))
                            (st_log Sim.destroyed)).
  { unfold Sim.destroyed. rewrite Hlog, drop_app_length. reflexivity. }
  assert (Hpf : In (EvCglDestroyPixelFormat 1%N 0) (events new)).
  { rewrite Hnew. vm_compute. do 6 right. left. reflexivity. }
  assert (Hev : In (EvDestroySurface 7%N 0 10%N) (events new)).
  { rewrite Hnew. vm_compute. do 5 right. left. reflexivity. }
  exists new. split_and!; [exact Hlog|exact Hiff|exact Hattached|exact Honce
                          | | |].
  - destruct (Hcalls 1%N 0 11%positive Hpf eq_refl)
      as (r & last & w & w' & m & pre & post & Hr & Hcall & Hsplit & _
          & Hlast).
    assert (last = true) as ->.
    { destruct last; [reflexivity|]. exfalso.
      assert (Hnf : ~ In (EvDestroyDrawable 11%positive false)
                         (events new)).
      { rewrite Hnew. vm_compute. intros Hin.
        repeat (destruct Hin as [Hin|Hin]; [discriminate Hin|]).
        exact Hin. }
      apply Hnf. rewrite Hsplit. unfold events. rewrite map_app.
      apply in_or_app. right. left. reflexivity. }
    destruct (Hlast eq_refl) as (m' & post' & Hpost).
    exists r, m, w, w', pre, m', post'.
    split_and!; [exact Hr|exact Hcall|].
    rewrite Hsplit, Hpost. reflexivity.
  - unfold events in Hev.
    apply in_map_iff in Hev as ([[e m] w] & He & Hin). simpl in He. subst e.
    assert (Hrun : @apple_glx_destroy_context _ (Sim.externals Sim.healthy)
                     1%positive Sim.dpy Sim.bound = Done tt Sim.destroyed)
      by (vm_compute; reflexivity).
    destruct (Hrefs Scenes.references sim_counted_references
                sim_references_cover_bound _ _ _ m w Hin) as [_ Hdone].
    destruct (Hdone Sim.destroyed Hrun) as [Hnone _].
    exact Hnone.
  - intros ptr2 dpy2 new2 d last Hlog2 Hin2 Hd.
    unfold events in Hev.
    apply in_map_iff in Hev as ([[e m] w] & He & Hin). simpl in He. subst e.
    assert (Hrun : @apple_glx_destroy_context _ (Sim.externals Sim.healthy)
                     1%positive Sim.dpy Sim.bound = Done tt Sim.destroyed)
      by (vm_compute; reflexivity).
    destruct (Hrefs Scenes.references sim_counted_references
                sim_references_cover_bound _ _ _ m w Hin) as [_ Hdone].
    destruct (Hdone Sim.destroyed Hrun) as [_ Hnext].
    apply (Hnext ptr2 dpy2 new2 d last Hlog2 Hin2). rewrite Hd. reflexivity.
Defined.

(** C9, at work: a destruction through a cell that holds [NULL]. *)
Lemma destroy_null_handle_is_noop_witness :
  cells (st_mem Sim.init) !! 1%positive = Some None /\
  @apple_glx_destroy_context _ (Sim.externals Sim.healthy)
    1%positive Sim.dpy Sim.init = Done tt Sim.init /\
  st_mem (final (@apple_glx_destroy_context _ (Sim.externals Sim.healthy)
                   1%positive Sim.dpy Sim.init)) = st_mem Sim.init /\
  st_world (final (@apple_glx_destroy_context _ (Sim.externals Sim.healthy)
                     1%positive Sim.dpy Sim.init)) = st_world Sim.init /\
  st_log (final (@apple_glx_destroy_context _ (Sim.externals Sim.healthy)
                   1%positive Sim.dpy Sim.init)) = st_log Sim.init.
Proof.
  split; [by vm_compute|].
  apply (@destroy_null_handle_is_noop _ (Sim.externals Sim.healthy)).
  by vm_compute.
Defined.

(** C10, at work: the cell of the destroyed context. *)
Lemma destroy_clears_handle_witness :
  cells (st_mem Sim.bound) !! 1%positive = Some (Some 1%positive) /\
  @apple_glx_destroy_context _ (Sim.externals Sim.healthy)
    1%positive Sim.dpy Sim.bound = Done tt Sim.destroyed /\
  cells (st_mem Sim.destroyed) !! 1%positive = Some None /\
  heap (st_mem Sim.destroyed) !! 1%positive = None /\
  @apple_glx_destroy_context _ (Sim.externals Sim.healthy)
    1%positive Sim.dpy Sim.destroyed = Done tt Sim.destroyed.
Proof.
  split; [by vm_compute|]. split; [by vm_compute|].
  apply (@destroy_clears_handle _ (Sim.externals Sim.healthy)
           Sim.bound Sim.destroyed 1%positive Sim.dpy 1%positive);
    by vm_compute.
Defined.

(** C2, as stated, fails: the attach call returns the code [5], the call
    reports failure, and the context has the record of the drawable [20]
    attached. *)
Lemma attach_failure_leaves_drawable_attached :
  @apple_glx_make_current_context _ (Sim.externals Sim.attach_fails)
    2%N Sim.dpy (Some 1%positive) 20%N Sim.bound
    = Done true Sim.attach_failed_state /\
  attach_failed
    (events (drop (length (st_log Sim.bound))
                  (st_log Sim.attach_failed_state))) = true /\
  attached (st_mem Sim.attach_failed_state) 1%positive = Some 21%positive /\
  attached (st_mem Sim.attach_failed_state) 1%positive <> None.
Proof. split_and!; by vm_compute. Qed.

(** C2, amended, at work on the same call. *)
Lemma make_current_attach_failure_witness :
  let new := drop (length (st_log Sim.bound))
                  (st_log Sim.attach_failed_state) in
  st_log Sim.attach_failed_state = st_log Sim.bound ++ new /\
  attach_failed (events new) = true /\
  exists s' g c,
    @apple_glx_make_current_context _ (Sim.externals Sim.attach_fails)
      2%N Sim.dpy (Some 1%positive) 20%N Sim.bound = Done true s' /\
    heap (st_mem Sim.bound) !! 1%positive = Some c /\
    st_mem s' = with_heap (<[1%positive := set_drawable (Some g) c]>
                             (heap (st_mem Sim.bound)))
                          (st_mem Sim.bound) /\
    resolved g (events new) /\
    (forall obj err, ~ In (EvCglSetCurrentContext obj err) (events new)) /\
    exists tail,
      new = (EvReleaseDrawable 11%positive, st_mem Sim.bound,
             st_world Sim.bound) :: tail /\
      forall d', ~ In (EvReleaseDrawable d') (events tail).
Proof.
  intros new. split; [by vm_compute|]. split; [by vm_compute|].
  destruct (@make_current_attach_failure _ (Sim.externals Sim.attach_fails)
              Sim.bound 2%N Sim.dpy 1%positive 20%N new)
    as (s' & g & c & Hrun & Hc & Hmem & Hres & Hno & Hrel);
    [by vm_compute|by vm_compute|].
  assert (Hd : drawable c = Some 11%positive).
  { pose proof Hc as Hc'. vm_compute in Hc'. injection Hc' as Hc'.
    rewrite <- Hc'. reflexivity. }
  rewrite Hd in Hrel.
  exists s', g, c.
  split_and!; [exact Hrun|exact Hc|exact Hmem|exact Hres|exact Hno
              |exact Hrel].
Defined.

(** C3, as stated, fails: the context has the record of the drawable [10]
    attached, make-current with [None] succeeds, and the context still has
    it attached. *)
Lemma clear_keeps_drawable_attached :
  attached (st_mem Sim.bound) 1%positive = Some 11%positive /\
  @apple_glx_make_current_context _ (Sim.externals Sim.healthy)
    3%N Sim.dpy (Some 1%positive) None_XID Sim.bound
    = Done false Sim.cleared /\
  attached (st_mem Sim.cleared) 1%positive = Some 11%positive /\
  attached (st_mem Sim.cleared) 1%positive <> None.
Proof. split_and!; by vm_compute. Qed.

(** C3, amended, at work on the same call. *)
Lemma make_current_none_keeps_memory_witness :
  @apple_glx_make_current_context _ (Sim.externals Sim.healthy)
    3%N Sim.dpy (Some 1%positive) None_XID Sim.bound
    = Done false Sim.cleared /\
  st_mem Sim.cleared = st_mem Sim.bound /\
  attached (st_mem Sim.cleared) 1%positive
    = attached (st_mem Sim.bound) 1%positive /\
  exists c,
    heap (st_mem Sim.bound) !! 1%positive = Some c /\
    (false = false ->
     exists w,
       st_log Sim.cleared = st_log Sim.bound ++
         [(EvCglClearDrawable (context_obj c) 0, st_mem Sim.bound,
           st_world Sim.bound);
          (EvCglSetCurrentContext (context_obj c) 0, st_mem Sim.bound, w)]).
Proof.
  split; [by vm_compute|].
  apply (@make_current_none_keeps_memory _ (Sim.externals Sim.healthy)
           Sim.bound Sim.cleared 3%N Sim.dpy 1%positive false).
  by vm_compute.
Defined.

(** C4, as stated, fails: thread [3] makes the context current with
    [None], the call succeeds, and [thread_id] is still the thread [2] of
    the make-current before. *)
Lemma clear_keeps_thread_id :
  @apple_glx_make_current_context _ (Sim.externals Sim.healthy)
    3%N Sim.dpy (Some 1%positive) None_XID Sim.bound
    = Done false Sim.cleared /\
  thread_id <$> heap (st_mem Sim.cleared) !! 1%positive = Some 2%N /\
  thread_id <$> heap (st_mem Sim.cleared) !! 1%positive <> Some 3%N.
Proof. split_and!; by vm_compute. Qed.

(** C4, amended, at work: thread [2] binds the context that thread [1]
    created. *)
Lemma make_current_success_thread_witness :
  @apple_glx_make_current_context _ (Sim.externals Sim.healthy)
    2%N Sim.dpy (Some 1%positive) 10%N Sim.two_contexts
    = Done false Sim.bound /\
  exists c c',
    heap (st_mem Sim.two_contexts) !! 1%positive = Some c /\
    heap (st_mem Sim.bound) !! 1%positive = Some c' /\
    thread_id c' = if (10 =? None_XID)%N then thread_id c else 2%N.
Proof.
  split; [by vm_compute|].
  apply (@make_current_success_thread _ (Sim.externals Sim.healthy)
           Sim.two_contexts Sim.bound 2%N Sim.dpy 1%positive 10%N).
  by vm_compute.
Defined.

(** C5, at work: the bound context is switched from the drawable [10] to
    the drawable [20], unbound natively, and bound to [10] again. *)
Lemma make_current_no_double_attach_witness :
  (exists new,
     st_log (final (@make_current_each _ (Sim.externals Sim.healthy)
                      2%N Sim.dpy 1%positive [20%N; None_XID; 10%N]
                      Sim.bound))
       = st_log Sim.bound ++ new /\
     Forall (no_double_attach 1%positive) new) /\
  Sim.dpy ≠ NULL /\ 20%N ≠ None_XID /\
  attached (st_mem Sim.bound) 1%positive = Some 11%positive /\
  exists r m w tail,
    st_log (final (@apple_glx_make_current_context
                     _ (Sim.externals Sim.healthy)
                     2%N Sim.dpy (Some 1%positive) 20%N Sim.bound))
      = st_log Sim.bound
        ++ (EvReleaseDrawable 11%positive, st_mem Sim.bound,
            st_world Sim.bound)
        :: (EvFindDrawable Sim.dpy 20%N r, m, w) :: tail /\
    attached m 1%positive = None.
Proof.
  destruct (@make_current_no_double_attach _ (Sim.externals Sim.healthy)
              2%N Sim.dpy 1%positive) as [Hseq Hswitch].
  split; [apply Hseq|]. split; [done|]. split; [done|].
  split; [by vm_compute|]. apply Hswitch; by vm_compute.
Defined.

(** C8, at work: the context bound to the drawable [10] is made current
    for it twice. *)
Lemma make_current_twice_rebinds_witness :
  @healthy_layer _ (Sim.externals Sim.healthy) /\
  Sim.dpy ≠ NULL /\ 10%N ≠ None_XID /\
  @apple_glx_is_current_drawable _ (Sim.externals Sim.healthy)
    (Some 1%positive) 10%N Sim.bound = Done true Sim.bound /\
  exists s1 s2 new1 new2,
    @apple_glx_make_current_context _ (Sim.externals Sim.healthy)
      2%N Sim.dpy (Some 1%positive) 10%N Sim.bound = Done false s1 /\
    @apple_glx_make_current_context _ (Sim.externals Sim.healthy)
      2%N Sim.dpy (Some 1%positive) 10%N s1 = Done false s2 /\
    st_log s1 = st_log Sim.bound ++ new1 /\ st_log s2 = st_log s1 ++ new2 /\
    full_cycle Sim.dpy 1%positive 10%N (events new1) /\
    full_cycle Sim.dpy 1%positive 10%N (events new2) /\
    @apple_glx_is_current_drawable _ (Sim.externals Sim.healthy)
      (Some 1%positive) 10%N s1 = Done true s1 /\
    @apple_glx_is_current_drawable _ (Sim.externals Sim.healthy)
      (Some 1%positive) 10%N s2 = Done true s2.
Proof.
  split; [apply sim_healthy_layer|]. split; [done|]. split; [done|].
  split; [by vm_compute|].
  apply (@make_current_twice_rebinds _ (Sim.externals Sim.healthy));
    [apply sim_healthy_layer|done|done|by vm_compute].
Defined.

(** The records of the drawables attached in the scenario are readable. *)
Lemma sim_bound_records q c g :
  q ∈ [2%positive; 1%positive] ->
  heap (st_mem Sim.bound) !! q = Some c ->
  drawable c = Some g ->
  is_Some (@drawable_at _ (Sim.externals Sim.healthy) (st_world Sim.bound) g).
Proof.
  intros Hq Hc Hg.
  apply elem_of_cons in Hq as [->|Hq];
    [|apply list_elem_of_singleton in Hq as ->].
  - vm_compute in Hc. injection Hc as <-. done.
  - vm_compute in Hc. injection Hc as <-. injection Hg as <-.
    eexists. vm_compute. reflexivity.
Qed.

(** C6, at work: the uid of the drawable [10] is looked up while the
    first context, second on the list, is bound to it. *)
Lemma get_surface_from_uid_spec_witness :
  registry (st_mem Sim.bound) [2%positive; 1%positive] /\
  (length [2%positive; 1%positive] <= 2)%nat /\
  @pthread_mutex_lock _ (Sim.externals Sim.healthy) (st_world Sim.bound)
    = (0, st_world Sim.bound) /\
  @pthread_mutex_unlock _ (Sim.externals Sim.healthy) (st_world Sim.bound)
    = (0, st_world Sim.bound) /\
  exists s',
    @apple_glx_get_surface_from_uid _ (Sim.externals Sim.healthy)
      2 1010%N Sim.bound = Done (Some (110%N, 2%N)) s' /\
    context_lock (st_mem s') = false /\
    events (drop (length (st_log Sim.bound)) (st_log s'))
      = [EvMutexLock 0; EvExamine 2%positive; EvExamine 1%positive;
         EvMutexUnlock 0].
Proof.
  split; [apply sim_registry_bound|]. split; [simpl; lia|].
  split; [done|]. split; [done|].
  destruct (@get_surface_from_uid_spec _ (Sim.externals Sim.healthy)
              Sim.bound 1010%N [2%positive; 1%positive] 2%nat
              (st_world Sim.bound) (st_world Sim.bound)
              sim_registry_bound ltac:(simpl; lia) eq_refl eq_refl
              sim_bound_records) as (Hrun & _ & _).
  eexists. split; [|split].
  - rewrite Hrun. f_equal.
  - done.
  - simpl. rewrite drop_app_length. by vm_compute.
Defined.

(** * More of the code: creation, failures, frames and compositions *)

(** The same as [known_scrutinee], with reads of structs that the last
    store did not touch. *)
Ltac known_scrutinee_ne x :=
  lazymatch x with
  | context [match ?y with _ => _ end] => known_scrutinee_ne y
  | _ => first [ match goal with E : x = _ |- _ => rewrite E end
               | rewrite lookup_insert_eq
               | rewrite lookup_insert_ne by congruence ]
  end.

Ltac norm_mem :=
  unfold with_heap, with_cells, with_context_list, with_context_lock,
    set_drawable, set_thread_id, set_previous, set_next, set_context_obj,
    set_pixel_format_obj, set_screen, set_double_buffered, blank_context;
  simpl; rewrite ?insert_insert_eq.

Ltac run_ne_step :=
  match goal with
  | |- context [match ?x with _ => _ end] => known_scrutinee_ne x
  end; norm_mem.

Ltac run_ne := unfold_prims; norm_mem; repeat run_ne_step.

Section Create.

Context {W : Type} `{Externals W}.

Lemma dlist_frame h prev p l a v :
  a ∉ l -> dlist h prev p l -> dlist (<[a := v]> h) prev p l.
Proof.
  revert prev p. induction l as [|b l IH]; intros prev p Hn; simpl; [done|].
  intros [-> (c & Hc & Hp & Hl)]. split; [done|].
  exists c. rewrite lookup_insert_ne.
  - split_and!; [done..|]. apply IH; [|done].
    intros Hin. apply Hn. by right.
  - intros ->. apply Hn. by left.
Qed.

Lemma dlist_frame_delete h prev p l a :
  a ∉ l -> dlist h prev p l -> dlist (delete a h) prev p l.
Proof.
  revert prev p. induction l as [|b l IH]; intros prev p Hn; simpl; [done|].
  intros [-> (c & Hc & Hp & Hl)]. split; [done|].
  exists c. rewrite lookup_delete_ne.
  - split_and!; [done..|]. apply IH; [|done].
    intros Hin. apply Hn. by right.
  - intros ->. apply Hn. by left.
Qed.

Lemma dlist_allocated h prev p l a :
  dlist h prev p l -> a ∈ l -> is_Some (h !! a).
Proof.
  revert prev p. induction l as [|b l IH]; intros prev p; simpl.
  - intros _ Hin. by apply not_elem_of_nil in Hin.
  - intros [_ (c & Hc & _ & Hl)] [->|Hin]%elem_of_cons; eauto.
Qed.

(** The first node of a list can be given another predecessor. *)
Lemma dlist_new_previous h prev prev' p l :
  dlist h prev p l ->
  dlist (match p with
         | Some a => alter (set_previous prev') a h
         | None => h
         end) prev' p l.
Proof.
  intros Hl. pose proof (dlist_NoDup _ _ _ _ Hl) as Hnd.
  destruct l as [|a l]; simpl in *; [by subst|].
  destruct Hl as [-> (c & Hc & _ & Hl)]. split; [done|].
  exists (set_previous prev' c). rewrite lookup_alter_eq, Hc.
  split_and!; [done..|]. simpl. apply dlist_frame_alter; [|done].
  by apply NoDup_cons in Hnd as [? _].
Qed.

Ltac head_intro :=
  simpl; repeat (split; [done|]); eexists;
  split; [by rewrite lookup_insert_eq|]; split; [done|]; simpl.

Lemma malloc_run (s : state W) w1 :
  malloc_ok (st_world s) = (true, w1) ->
  exists ac,
    heap (st_mem s) !! ac = None /\
    malloc s
      = Done (Some ac)
          (mk_state (with_heap (<[ac := blank_context]> (heap (st_mem s)))
                               (st_mem s))
                    w1 (st_log s ++ [(EvMalloc true, st_mem s, st_world s)])).
Proof.
  intros Emalloc. exists (fresh (dom (heap (st_mem s)))). split.
  - apply not_elem_of_dom, is_fresh.
  - unfold malloc. by run.
Qed.

Lemma create_run (s : state W) self ptr dpy scr mode sharedContext l share v
    w1 pf db w2 obj w3 w4 w5 :
  registry (st_mem s) l ->
  cells (st_mem s) !! ptr = Some v ->
  match sharedContext with
  | Some sharedac => context_obj <$> heap (st_mem s) !! sharedac
  | None => Some NULL
  end = Some share ->
  malloc_ok (st_world s) = (true, w1) ->
  apple_visual_create_pfobj mode w1 = ((pf, db), w2) ->
  cgl_create_context pf share w2 = ((0, obj), w3) ->
  pthread_mutex_lock w3 = (0, w4) ->
  pthread_mutex_unlock w4 = (0, w5) ->
  exists ac m' new,
    apple_glx_create_context self ptr dpy scr mode sharedContext s
      = Done tt (mk_state m' w5 (st_log s ++ new)) /\
    heap (st_mem s) !! ac = None /\
    heap m' !! ac
      = Some (mk_context obj pf None self scr db None
                         (context_list (st_mem s))) /\
    registry m' (ac :: l) /\
    (forall p, p ≠ ac ->
       payload <$> heap m' !! p = payload <$> heap (st_mem s) !! p) /\
    cells m' = <[ptr := Some ac]> (cells (st_mem s)) /\
    context_lock m' = false /\
    events new = [EvMalloc true; EvCreatePfobj mode pf db;
                  EvCglCreateContext pf share 0 obj;
                  EvMutexLock 0; EvMutexUnlock 0] /\
    Forall (linked_under_lock l ac) new.
Proof.
  intros Hreg Hcell Hshare Emalloc Epf Ecreate Elock Eunlock.
  destruct (malloc_run s w1 Emalloc) as (ac & Hac & Hmalloc).
  destruct s as [[h hd lk cl] w lg]. unfold registry in *. simpl in *.
  assert (Hacl : ac ∉ l).
  { intros Hin. destruct (dlist_allocated _ _ _ _ _ Hreg Hin) as [c Hc].
    congruence. }
  assert (Hsa : forall sa, sharedContext = Some sa -> sa ≠ ac).
  { intros sa -> ->. by rewrite Hac in Hshare. }
  exists ac.
  unfold apple_glx_create_context, lock_context_list, unlock_context_list.
  unfold bind at 1. rewrite Hmalloc. clear Hmalloc Emalloc.
  assert (exists share', match sharedContext with
                         | Some sa => h !! sa = Some share' /\
                                      context_obj share' = share /\ sa ≠ ac
                         | None => share = NULL
                         end) as [csa Hcsa].
  { destruct sharedContext as [sa|].
    - destruct (h !! sa) as [csa|] eqn:Esa; [|done]. exists csa.
      injection Hshare as <-. split_and!; [done..|]. by apply Hsa.
    - exists blank_context. by injection Hshare as <-. }
  clear Hshare Hsa.
  destruct l as [|hd0 l]; simpl in Hreg.
  - subst hd.
    destruct sharedContext as [sa|];
      [destruct Hcsa as (Esa & <- & Hne)|subst share].
    all: run_ne.
    all: eexists _, _; (split; [rewrite <- !app_assoc; reflexivity|]).
    all: simpl; split_and!; try done.
    all: try by rewrite lookup_insert_eq.
    all: try (intros p Hp; by rewrite lookup_insert_ne).
    all: try by head_intro.
    all: split_Forall; unfold linked_under_lock, registry; simpl; try done.
    all: by head_intro.
  - assert (Hreg0 : dlist h None hd (hd0 :: l)) by done.
    destruct Hreg as [-> (c0 & Hc0 & Hp0 & Hl)].
    assert (Hhd0 : hd0 ≠ ac) by (intros ->; apply Hacl; by left).
    assert (Hacl' : ac ∉ l) by (intros Hin; apply Hacl; by right).
    assert (Hhd0l : hd0 ∉ l).
    { assert (Hnd : NoDup (hd0 :: l)).
      { eapply (dlist_NoDup h None (Some hd0)). simpl. eauto. }
      by apply NoDup_cons in Hnd as [? _]. }
    destruct sharedContext as [sa|];
      [destruct Hcsa as (Esa & <- & Hne)|subst share].
    all: run_ne.
    all: eexists _, _; (split; [rewrite <- !app_assoc; reflexivity|]).
    all: simpl; split_and!; try done.
    all: try by rewrite lookup_insert_eq.
    all: try (intros p Hp; rewrite lookup_insert_ne by done;
              rewrite lookup_insert; case_decide; subst;
              [by rewrite Hc0|by rewrite lookup_insert_ne]).
    all: try (head_intro; split; [done|]; eexists;
              split; [by rewrite lookup_insert_ne, lookup_insert_eq by done|];
              split; [done|]; simpl; by repeat apply dlist_frame).
    all: split_Forall; unfold linked_under_lock, registry; simpl.
    all: try (by apply (dlist_frame h None (Some hd0) (hd0 :: l))).
    all: try done.
    all: head_intro; split; [done|]; eexists;
      (split; [by rewrite lookup_insert_ne, lookup_insert_eq by done|]);
      split; [done|]; simpl; by repeat apply dlist_frame.
Qed.

Lemma create_failure_run (s : state W) self ptr dpy scr mode sharedContext
    new :
  st_log (final (apple_glx_create_context self ptr dpy scr mode
                   sharedContext s)) = st_log s ++ new ->
  creation_failed (events new) = true ->
  exists s',
    apple_glx_create_context self ptr dpy scr mode sharedContext s
      = Aborted s' /\
    context_list (st_mem s') = context_list (st_mem s) /\
    context_lock (st_mem s') = context_lock (st_mem s) /\
    cells (st_mem s') = cells (st_mem s) /\
    (forall p, is_Some (heap (st_mem s) !! p) ->
               heap (st_mem s') !! p = heap (st_mem s) !! p) /\
    List.filter is_mutex_event (events new) = [].
Proof.
  destruct s as [[h hd lk cl] w lg].
  assert (Hfresh : h !! fresh (dom h) = None)
    by apply not_elem_of_dom, is_fresh.
  unfold apple_glx_create_context, malloc, lock_context_list,
    unlock_context_list.
  exec.
  all: intros Hlog Hfail; invert_log Hlog.
  all: unfold events in *; simpl in *; rewrite ?orb_false_r in Hfail.
  all: try congruence.
  all: eexists; (split; [reflexivity|]); simpl; split_and!; try done.
  all: intros q [c Hc]; rewrite !lookup_insert_ne; congruence.
Qed.

(** X1: a creation whose allocation and native calls succeed returns with
    a struct that was not allocated before, initialised from the results
    of the native calls ([drawable] is [NULL], [thread_id] the calling
    thread), put in front of the list between the lock and the unlock,
    and stored in the cell; the contexts of before keep what they held
    and their order.  The shared context is read for its native context
    only. *)
Theorem create_links_at_head (s : state W) self ptr dpy scr mode
    sharedContext l share v w1 pf db w2 obj w3 w4 w5 :
  registry (st_mem s) l ->
  cells (st_mem s) !! ptr = Some v ->
  match sharedContext with
  | Some sharedac => context_obj <$> heap (st_mem s) !! sharedac
  | None => Some NULL
  end = Some share ->
  malloc_ok (st_world s) = (true, w1) ->
  apple_visual_create_pfobj mode w1 = ((pf, db), w2) ->
  cgl_create_context pf share w2 = ((0, obj), w3) ->
  pthread_mutex_lock w3 = (0, w4) ->
  pthread_mutex_unlock w4 = (0, w5) ->
  exists ac m' new,
    apple_glx_create_context self ptr dpy scr mode sharedContext s
      = Done tt (mk_state m' w5 (st_log s ++ new)) /\
    heap (st_mem s) !! ac = None /\
    heap m' !! ac
      = Some (mk_context obj pf None self scr db None
                         (context_list (st_mem s))) /\
    registry m' (ac :: l) /\
    (forall p, p ≠ ac ->
       payload <$> heap m' !! p = payload <$> heap (st_mem s) !! p) /\
    cells m' = <[ptr := Some ac]> (cells (st_mem s)) /\
    context_lock m' = false /\
    events new = [EvMalloc true; EvCreatePfobj mode pf db;
                  EvCglCreateContext pf share 0 obj;
                  EvMutexLock 0; EvMutexUnlock 0] /\
    Forall (linked_under_lock l ac) new.
Proof. apply create_run. Qed.

(** X2: a creation whose [malloc] returns [NULL] or whose native context
    cannot be created aborts before it asks for the lock: the list, the
    lock, the cell and the structs allocated before are untouched, and a
    well-formed list is still the same list. *)
Theorem create_failure_aborts_before_lock (s : state W) self ptr dpy scr
    mode sharedContext new :
  st_log (final (apple_glx_create_context self ptr dpy scr mode
                   sharedContext s)) = st_log s ++ new ->
  creation_failed (events new) = true ->
  exists s',
    apple_glx_create_context self ptr dpy scr mode sharedContext s
      = Aborted s' /\
    context_list (st_mem s') = context_list (st_mem s) /\
    context_lock (st_mem s') = context_lock (st_mem s) /\
    cells (st_mem s') = cells (st_mem s) /\
    (forall p, is_Some (heap (st_mem s) !! p) ->
               heap (st_mem s') !! p = heap (st_mem s) !! p) /\
    List.filter is_mutex_event (events new) = [] /\
    forall l, registry (st_mem s) l -> registry (st_mem s') l.
Proof.
  intros Hlog Hfail.
  destruct (create_failure_run s self ptr dpy scr mode sharedContext new
              Hlog Hfail) as (s' & Hrun & Hl & Hlk & Hc & Hh & Hmutex).
  exists s'. split_and!; try done.
  assert (Hall : forall l prev p,
            dlist (heap (st_mem s)) prev p l ->
            dlist (heap (st_mem s')) prev p l).
  { induction l as [|a l IH]; intros prev p; simpl; [done|].
    intros [-> (c & Hc' & Hp & Hrest)]. split; [done|].
    exists c. split_and!; [|done|by apply IH].
    rewrite Hh; [done|by eexists]. }
  intros l. unfold registry. rewrite Hl. apply Hall.
Qed.

End Create.

Section DestroyMore.

Context {W : Type} `{Externals W}.

(** A destruction that returns took the context off the list and left
    the other structs their payload. *)
Lemma destroy_run_registry (s s' : state W) ptr dpy ac x y :
  cells (st_mem s) !! ptr = Some (Some ac) ->
  registry (st_mem s) (x ++ ac :: y) ->
  apple_glx_destroy_context ptr dpy s = Done tt s' ->
  registry (st_mem s') (x ++ y) /\
  heap (st_mem s') !! ac = None /\
  (forall p, p ≠ ac ->
     payload <$> heap (st_mem s') !! p = payload <$> heap (st_mem s) !! p) /\
  cells (st_mem s') = <[ptr := None]> (cells (st_mem s)) /\
  context_lock (st_mem s') = false.
Proof.
  intros Hcell Hreg.
  assert (Hacxy : ac ∉ x ++ y).
  { pose proof (dlist_NoDup _ _ _ _ Hreg) as Hnd.
    apply NoDup_app in Hnd as (_ & Hd & Hnd).
    apply NoDup_cons in Hnd as [? _].
    intros [?|?]%elem_of_app; [|done]. apply (Hd ac); [done|by left]. }
  unfold apple_glx_destroy_context, lock_context_list, unlock_context_list,
    free.
  exec_blocks; intros Hdone; simplify_eq/=.
  match goal with
  | E : unlink _ ?s1 = _ ?s0 |- _ =>
      destruct (unlink_registry s1 ac x y Hreg)
        as (m' & Hm' & Hreg' & _ & Hcl' & _);
      destruct s0 as [m0 w0 l0]; rewrite Hm' in E; simplify_eq/=
  end.
  match goal with E : st_mem _ = _ |- _ => rewrite E in * end. simpl in *.
  split_and!.
  - by apply dlist_frame_delete.
  - by rewrite lookup_delete_eq.
  - intros p Hp. rewrite lookup_delete_ne by done. auto.
  - congruence.
  - done.
Qed.

(** Lines 167 to 177 return when the struct and the record of its drawable
    can be read. *)
Lemma destroy_attached_returns (s : state W) ac dpy c :
  heap (st_mem s) !! ac = Some c ->
  (forall g, drawable c = Some g -> is_Some (drawable_at (st_world s) g)) ->
  exists s', destroy_attached ac dpy s = Done tt s'.
Proof.
  intros Hc Hd. unfold destroy_attached. unfold_prims. rewrite Hc.
  destruct (drawable c) as [g|] eqn:Hg; [|by eexists].
  destruct (Hd g eq_refl) as [r Hr]. rewrite Hr.
  destruct (apple_glx_destroy_drawable g (st_world s)) as [[] w1]; simpl.
  - rewrite Hc. destruct (XAppleDRIDestroySurface _ _ _ _) as [[] ?].
    by eexists.
  - by eexists.
Qed.

Lemma destroy_run_returns (R : reliable_native) (s : state W) ptr dpy ac c x y :
  cells (st_mem s) !! ptr = Some (Some ac) ->
  registry (st_mem s) (x ++ ac :: y) ->
  heap (st_mem s) !! ac = Some c ->
  (forall g, drawable c = Some g -> is_Some (drawable_at (st_world s) g)) ->
  exists s', apple_glx_destroy_context ptr dpy s = Done tt s'.
Proof.
  intros Hcell Hreg Hc Hd. destruct s as [m w lg]; simpl in *.
  unfold apple_glx_destroy_context, lock_context_list, unlock_context_list,
    free.
  unfold_prims; simpl. rewrite Hcell. simpl.
  destruct (native_set_current R NULL w) as (w1 & E1 & D1).
  simpl in E1. rewrite E1. simpl.
  destruct (native_lock R w1) as (w2 & E2 & D2). rewrite E2. simpl.
  match goal with
  | |- context [unlink ac ?s1] =>
      destruct (unlink_registry s1 ac x y Hreg)
        as (m' & Hm' & Hreg' & _ & Hcl' & Hac); rewrite Hm'
  end.
  simpl in *.
  destruct (native_unlock R w2) as (w3 & E3 & D3). rewrite E3. simpl.
  rewrite Hac, Hc. simpl.
  destruct (native_clear_drawable R (context_obj c) w3) as (w4 & E4 & D4).
  rewrite E4. simpl.
  match goal with
  | |- context [destroy_attached ac dpy ?s1] =>
      destruct (destroy_attached_returns s1 ac dpy c) as [s2 Hs2];
        [ by simpl; rewrite Hac
        | by intros g Hg; simpl; rewrite D4, D3, D2, D1; apply Hd
        | pose proof (destroy_attached_log s1 ac dpy) as Hlog;
          rewrite Hs2 in *; simpl in Hlog; destruct Hlog as [Hmem _] ]
  end.
  destruct s2 as [m2 w5 lg2]; simpl in *; subst m2. simpl.
  rewrite Hac, Hc. simpl.
  pose proof (native_destroy_pixel_format R (pixel_format_obj c) w5) as E5.
  destruct (cgl_destroy_pixel_format (pixel_format_obj c) w5) as [e5 w6].
  simpl in E5; subst e5; simpl.
  rewrite Hac, Hc. simpl.
  pose proof (native_destroy_context R (context_obj c) w6) as E6.
  destruct (cgl_destroy_context (context_obj c) w6) as [e6 w7].
  simpl in E6; subst e6; simpl.
  rewrite Hac, Hc. simpl. rewrite Hcl', Hcell. simpl.
  destruct (apple_glx_garbage_collect_drawables dpy w7) as [[] w8].
  by eexists.
Qed.

(** X3: a destruction that returns has taken the context of the cell, and
    no other, off the list (the contexts before and after it keep their
    order), has freed its struct, has left the other structs what they
    held, has stored [NULL] in the cell and has released the lock. *)
Theorem destroy_removes_context (s s' : state W) ptr dpy ac x y :
  cells (st_mem s) !! ptr = Some (Some ac) ->
  registry (st_mem s) (x ++ ac :: y) ->
  apple_glx_destroy_context ptr dpy s = Done tt s' ->
  registry (st_mem s') (x ++ y) /\
  heap (st_mem s') !! ac = None /\
  (forall p, p ≠ ac ->
     payload <$> heap (st_mem s') !! p = payload <$> heap (st_mem s) !! p) /\
  cells (st_mem s') = <[ptr := None]> (cells (st_mem s)) /\
  context_lock (st_mem s') = false.
Proof. apply destroy_run_registry. Qed.

(** X4: with a mutex and a native layer that do not fail, the destruction
    of a context of a well-formed list returns (no [abort], no pointer
    that cannot be read), provided the record of its attached drawable,
    if it has one, can be read. *)
Theorem destroy_returns (R : reliable_native) (s : state W) ptr dpy ac c
    x y :
  cells (st_mem s) !! ptr = Some (Some ac) ->
  registry (st_mem s) (x ++ ac :: y) ->
  heap (st_mem s) !! ac = Some c ->
  (forall g, drawable c = Some g -> is_Some (drawable_at (st_world s) g)) ->
  exists s', apple_glx_destroy_context ptr dpy s = Done tt s'.
Proof. by apply destroy_run_returns. Qed.

(** X5: the struct is freed at the very end of a destruction: a run whose
    log has a [free] has freed the context of the cell and no other, after
    the pixel format and the native context were destroyed without error,
    in this order; it frees once, goes on to the garbage collection of the
    drawables and returns. *)
Theorem destroy_frees_after_native_teardown (s : state W) ptr dpy ac new p :
  cells (st_mem s) !! ptr = Some (Some ac) ->
  st_log (final (apple_glx_destroy_context ptr dpy s)) = st_log s ++ new ->
  In (EvFree p) (events new) ->
  p = ac /\
  exists s' pre pf obj,
    apple_glx_destroy_context ptr dpy s = Done tt s' /\
    events new = pre ++ [EvCglDestroyPixelFormat pf 0;
                         EvCglDestroyContext obj 0;
                         EvFree ac; EvGarbageCollect dpy] /\
    ~ In (EvFree ac) pre.
Proof.
  intros Hcell.
  unfold apple_glx_destroy_context, destroy_attached, lock_context_list,
    unlock_context_list, free.
  exec_blocks.
  all: repeat match goal with
         | E : st_log _ = _ |- _ => rewrite E; clear E
         end.
  all: intros Hlog Hin; invert_log Hlog.
  all: unfold events in *; simpl in *; split_in Hin.
  all: repeat match goal with
         | E : negb (_ =? _) = false |- _ =>
             apply negb_false_iff, Z.eqb_eq in E; subst
         end.
  all: try (exfalso; congruence).
  all: repeat match goal with u : unit |- _ => destruct u end.
  all: split; [done|].
  all: first
    [ eexists _, [_; _; _; _], _, _; split_and!; [reflexivity|reflexivity|]
    | eexists _, [_; _; _; _; _], _, _;
        split_and!; [reflexivity|reflexivity|]
    | eexists _, [_; _; _; _; _; _], _, _;
        split_and!; [reflexivity|reflexivity|] ].
  all: intros Hin; simpl in Hin; by split_in Hin.
Qed.

(** X6: a destruction that does not return (a native call failed, or a
    pointer could not be read) has not freed the struct and has not
    cleared the cell: the cell still holds the context, whose struct holds
    what it held, and the log has no [free]. *)
Theorem destroy_failure_keeps_struct (s : state W) ptr dpy ac :
  cells (st_mem s) !! ptr = Some (Some ac) ->
  (forall s', apple_glx_destroy_context ptr dpy s <> Done tt s') ->
  cells (st_mem (final (apple_glx_destroy_context ptr dpy s)))
    = cells (st_mem s) /\
  payload <$> heap (st_mem (final (apple_glx_destroy_context ptr dpy s)))
                !! ac
    = payload <$> heap (st_mem s) !! ac /\
  exists new,
    st_log (final (apple_glx_destroy_context ptr dpy s)) = st_log s ++ new /\
    forall p, ~ In (EvFree p) (events new).
Proof.
  intros Hcell.
  unfold apple_glx_destroy_context, destroy_attached, lock_context_list,
    unlock_context_list, free.
  exec_blocks.
  all: repeat match goal with
         | E : st_log _ = _ |- _ => rewrite E; clear E
         end.
  all: repeat match goal with u : unit |- _ => destruct u end.
  all: intros Hnot; try (by destruct (Hnot _ eq_refl)).
  all: try (exfalso; congruence).
  all: split_and!; try congruence; try done.
  all: try (eexists; split; [log_ext|]; unfold events; simpl;
            intros q Hin; by split_in Hin).
Qed.

End DestroyMore.

Section MakeCurrentMore.

Context {W : Type} `{Externals W}.

(** A heap whose structs have the links of another holds the same
    lists. *)
Lemma dlist_links h h' prev p l :
  (forall a, a ∈ l ->
     (fun c => (previous c, next c)) <$> h' !! a
     = (fun c => (previous c, next c)) <$> h !! a) ->
  dlist h prev p l -> dlist h' prev p l.
Proof.
  revert prev p. induction l as [|a l IH]; intros prev p Hlinks; simpl.
  - done.
  - intros [-> (c & Hc & Hp & Hl)]. split; [done|].
    pose proof (Hlinks a ltac:(by left)) as Ha. rewrite Hc in Ha.
    destruct (h' !! a) as [c'|]; [|done]. injection Ha as Hp' Hn'.
    exists c'. split_and!; [done|congruence|]. rewrite Hn'.
    apply IH; [|done]. intros b Hb. apply Hlinks. by right.
Qed.

(** Make-current writes the [drawable] and [thread_id] fields of its
    context and nothing else, in every run. *)
Lemma make_current_frame_run (s : state W) self dpy ac id :
  let s' := final (apple_glx_make_current_context self dpy (Some ac) id s) in
  context_list (st_mem s') = context_list (st_mem s) /\
  context_lock (st_mem s') = context_lock (st_mem s) /\
  cells (st_mem s') = cells (st_mem s) /\
  match heap (st_mem s) !! ac with
  | Some c =>
      exists d t,
        heap (st_mem s')
        = <[ac := set_thread_id t (set_drawable d c)]> (heap (st_mem s))
  | None => heap (st_mem s') = heap (st_mem s)
  end.
Proof.
  destruct s as [[h hd lk cl] w lg].
  unfold apple_glx_make_current_context, attach_and_set_current. exec.
  all: split_and!; try done.
  all: norm_mem.
  all: try (eexists _, _; reflexivity).
  all: try (exists (drawable a), (thread_id a); destruct a; simpl;
            by rewrite insert_id).
Qed.

Lemma make_current_registry_run (s : state W) self dpy ac id l :
  registry (st_mem s) l ->
  registry
    (st_mem (final (apple_glx_make_current_context self dpy (Some ac) id s)))
    l.
Proof.
  pose proof (make_current_frame_run s self dpy ac id) as Hframe.
  cbv zeta in Hframe. destruct Hframe as (Hl & _ & _ & Hh).
  unfold registry. rewrite Hl. apply dlist_links. intros a _.
  destruct (heap (st_mem s) !! ac) as [c|] eqn:Hc.
  - destruct Hh as (d & t & ->).
    destruct (decide (a = ac)) as [->|Hne].
    + by rewrite lookup_insert_eq, Hc.
    + by rewrite lookup_insert_ne.
  - by rewrite Hh.
Qed.

(** X7: in every run of [apple_glx_make_current_context], whatever the
    collaborators return and whether it returns or stops, the list of
    contexts, the lock, the cells and the structs of the other contexts
    are as before; of its own struct the call writes the [drawable] and
    [thread_id] fields only.  A well-formed list stays the list it was. *)
Theorem make_current_writes_binding_only (s : state W) self dpy ac id :
  let s' := final (apple_glx_make_current_context self dpy (Some ac) id s) in
  context_list (st_mem s') = context_list (st_mem s) /\
  context_lock (st_mem s') = context_lock (st_mem s) /\
  cells (st_mem s') = cells (st_mem s) /\
  match heap (st_mem s) !! ac with
  | Some c =>
      exists d t,
        heap (st_mem s')
        = <[ac := set_thread_id t (set_drawable d c)]> (heap (st_mem s))
  | None => heap (st_mem s') = heap (st_mem s)
  end /\
  forall l, registry (st_mem s) l -> registry (st_mem s') l.
Proof.
  intros s'.
  pose proof (make_current_frame_run s self dpy ac id) as Hframe.
  cbv zeta in Hframe. destruct Hframe as (? & ? & ? & ?).
  split_and!; [done..|]. intros l. apply make_current_registry_run.
Qed.

(** X8: when the drawable manager fails to create the drawable record
    (line 255), make-current returns true; the context is left with no
    drawable attached, whatever it had before, and neither the attach call
    nor the native set-current call is made.  The calls of the run are
    the release of the drawable that was attached, when there was one,
    the lookup that found nothing and the creation that failed. *)
Theorem make_current_create_drawable_failure (s : state W) self dpy ac id
    new dpy' ac' id' g :
  st_log (final (apple_glx_make_current_context self dpy (Some ac) id s))
    = st_log s ++ new ->
  In (EvCreateDrawable dpy' ac' id' true g) (events new) ->
  exists s' c,
    apple_glx_make_current_context self dpy (Some ac) id s = Done true s' /\
    heap (st_mem s) !! ac = Some c /\
    st_mem s' = with_heap (<[ac := set_drawable None c]> (heap (st_mem s)))
                          (st_mem s) /\
    (forall obj sid err, ~ In (EvAttach obj sid err) (events new)) /\
    (forall obj err, ~ In (EvCglSetCurrentContext obj err) (events new)) /\
    events new
    = match drawable c with
      | Some d => [EvReleaseDrawable d]
      | None => []
      end ++ [EvFindDrawable dpy id None; EvCreateDrawable dpy ac id true g] /\
    match drawable c with
    | Some d =>
        exists tail, new = (EvReleaseDrawable d, st_mem s, st_world s) :: tail
    | None => True
    end.
Proof.
  destruct s as [[h hd lk cl] w lg].
  unfold apple_glx_make_current_context, attach_and_set_current.
  exec.
  all: intros Hlog Hin; invert_log Hlog.
  all: unfold events in *; simpl in *; split_in Hin.
  all: eexists _, _; split_and!; [reflexivity|reflexivity| | | | |].
  all: try (intros obj sid err Hin; by split_in Hin).
  all: try (intros obj err Hin; by split_in Hin).
  all: try match goal with E : drawable _ = _ |- _ => rewrite E end.
  all: norm_mem; try done.
  all: try (by eexists).
  all: destruct a; simpl in *; subst; by rewrite insert_id.
Qed.

(** X9: a make-current that returns true (an error) leaves [thread_id] as
    it was: the owning thread is recorded by a call that succeeds only. *)
Theorem make_current_error_keeps_thread (s s' : state W) self dpy ac id :
  apple_glx_make_current_context self dpy (Some ac) id s = Done true s' ->
  thread_id <$> heap (st_mem s') !! ac = thread_id <$> heap (st_mem s) !! ac.
Proof.
  unfold apple_glx_make_current_context, attach_and_set_current. exec.
  all: intros Hdone; simplify_eq/=.
  all: rewrite ?lookup_insert_eq; try done.
  all: by match goal with E : _ !! _ = _ |- _ => rewrite E end.
Qed.

(** What a make-current with a target drawable does when it succeeds. *)
Lemma make_current_success_run (s s' : state W) self dpy ac id :
  (id =? None_XID)%N = false ->
  apple_glx_make_current_context self dpy (Some ac) id s = Done false s' ->
  exists c g r new w,
    heap (st_mem s) !! ac = Some c /\
    st_mem s' = with_heap
                  (<[ac := set_thread_id self (set_drawable (Some g) c)]>
                     (heap (st_mem s)))
                  (st_mem s) /\
    st_log s' = st_log s ++ new /\
    resolved g (events new) /\
    drawable_at w g = Some r /\
    exists pre m1 m2 w2,
      new = pre ++ [(EvAttach (context_obj c) (agd_surface_id r) 0, m1, w);
                    (EvCglSetCurrentContext (context_obj c) 0, m2, w2)] /\
      (forall obj sid err, ~ In (EvAttach obj sid err) (events pre)) /\
      (forall obj err, ~ In (EvCglSetCurrentContext obj err) (events pre)).
Proof.
  destruct s as [[h hd lk cl] w lg]. intros Hid.
  unfold apple_glx_make_current_context, attach_and_set_current.
  rewrite Hid. exec.
  all: intros Hdone; simplify_eq/=.
  all: repeat match goal with
         | E : negb (_ =? _) = false |- _ =>
             apply negb_false_iff, Z.eqb_eq in E; subst
         end.
  all: eexists _, _, _, _, _; split_and!;
    [reflexivity| |log_ext| |eassumption|].
  all: try (norm_mem; done).
  all: try (unfold resolved, events; simpl;
    first [ left; eexists _, _; pick_in | right; eexists _, _, _; pick_in ]).
  all: simpl;
    first [ eexists [_], _, _, _; split; [reflexivity|]
          | eexists [_; _], _, _, _; split; [reflexivity|]
          | eexists [_; _; _], _, _, _; split; [reflexivity|] ].
  all: unfold events; simpl; split.
  all: try (intros obj sid err Hin; by split_in Hin).
  all: try (intros obj err Hin; by split_in Hin).
Qed.

(** X10: a make-current with a target drawable that returns false has
    written two fields of the context, [drawable] with the record that the
    drawable manager found or created in this call and [thread_id] with the
    calling thread, and nothing else in memory; its last two calls are the
    one attach of the run, of the native context to the surface of that
    record, and the one native set-current, both without error. *)
Theorem make_current_success_binds (s s' : state W) self dpy ac id :
  id ≠ None_XID ->
  apple_glx_make_current_context self dpy (Some ac) id s = Done false s' ->
  exists c g r new w,
    heap (st_mem s) !! ac = Some c /\
    st_mem s' = with_heap
                  (<[ac := set_thread_id self (set_drawable (Some g) c)]>
                     (heap (st_mem s)))
                  (st_mem s) /\
    st_log s' = st_log s ++ new /\
    resolved g (events new) /\
    drawable_at w g = Some r /\
    exists pre m1 m2 w2,
      new = pre ++ [(EvAttach (context_obj c) (agd_surface_id r) 0, m1, w);
                    (EvCglSetCurrentContext (context_obj c) 0, m2, w2)] /\
      (forall obj sid err, ~ In (EvAttach obj sid err) (events pre)) /\
      (forall obj err, ~ In (EvCglSetCurrentContext obj err) (events pre)).
Proof.
  intros Hid%N.eqb_neq. by apply make_current_success_run.
Qed.

End MakeCurrentMore.

Section LookupMore.

Context {W : Type} `{Externals W}.

(** The loop reads: whatever the list looks like and however the run
    ends, it writes the lock only, when it returns a match. *)
Lemma scan_context_list_frame uid fuel :
  forall ac (s : state W),
    context_lock (st_mem s) = true ->
    heap (st_mem (final (scan_context_list fuel uid ac s)))
      = heap (st_mem s) /\
    context_list (st_mem (final (scan_context_list fuel uid ac s)))
      = context_list (st_mem s) /\
    cells (st_mem (final (scan_context_list fuel uid ac s)))
      = cells (st_mem s) /\
    (exists new,
       st_log (final (scan_context_list fuel uid ac s)) = st_log s ++ new /\
       Forall reads_under_lock new) /\
    match scan_context_list fuel uid ac s with
    | Done (Some _) s1 => context_lock (st_mem s1) = false
    | Done None s1 => st_mem s1 = st_mem s /\ st_world s1 = st_world s
    | _ => True
    end.
Proof.
  induction fuel as [|fuel IH]; intros [p|] s Hlk; simpl.
  1,2,4: split_and!; try done; exists []; by rewrite app_nil_r.
  unfold unlock_context_list. unfold_prims. simpl.
  destruct (heap (st_mem s) !! p) as [c|] eqn:Hc; simpl.
  2: { split_and!; try done. eexists; split; [reflexivity|].
       by repeat constructor. }
  assert (Hnext :
    let s1 := mk_state (st_mem s) (st_world s)
                (st_log s ++ [(EvExamine p, st_mem s, st_world s)]) in
    heap (st_mem (final (scan_context_list fuel uid (next c) s1)))
      = heap (st_mem s) /\
    context_list (st_mem (final (scan_context_list fuel uid (next c) s1)))
      = context_list (st_mem s) /\
    cells (st_mem (final (scan_context_list fuel uid (next c) s1)))
      = cells (st_mem s) /\
    (exists new,
       st_log (final (scan_context_list fuel uid (next c) s1))
         = st_log s ++ new /\
       Forall reads_under_lock new) /\
    match scan_context_list fuel uid (next c) s1 with
    | Done (Some _) s2 => context_lock (st_mem s2) = false
    | Done None s2 => st_mem s2 = st_mem s /\ st_world s2 = st_world s
    | _ => True
    end).
  { intros s1. destruct (IH (next c) s1 Hlk) as (? & ? & ? & Hlog & ?).
    split_and!; try done. destruct Hlog as (new & -> & Hnew).
    eexists. simpl. rewrite <- app_assoc. split; [reflexivity|].
    constructor; [done|done]. }
  simpl in Hnext.
  destruct (drawable c) as [g|] eqn:Hg; simpl; [|by rewrite Hc].
  destruct (drawable_at (st_world s) g) as [r|] eqn:Hr; simpl.
  2: { split_and!; try done. eexists; split; [reflexivity|].
       by repeat constructor. }
  destruct (agd_uid r =? uid)%N; simpl; rewrite Hc; simpl; [|done].
  rewrite Hg. simpl. rewrite Hr. simpl. rewrite Hc. simpl.
  destruct (pthread_mutex_unlock (st_world s)) as [rc w1]; simpl.
  destruct (rc =? 0); simpl.
  all: split_and!; try done.
  all: eexists; (split; [log_ext|]).
  all: by repeat constructor.
Qed.

(** X11: in every run of [apple_glx_get_surface_from_uid], whatever the
    list looks like, whatever the mutex returns and however the run ends,
    the structs, the list and the cells are not written; the only calls
    are requests to the mutex, and every context is examined with the lock
    held.  A run that returns has released the lock. *)
Theorem get_surface_from_uid_reads_under_lock (s : state W) fuel uid :
  heap (st_mem (final (apple_glx_get_surface_from_uid fuel uid s)))
    = heap (st_mem s) /\
  context_list (st_mem (final (apple_glx_get_surface_from_uid fuel uid s)))
    = context_list (st_mem s) /\
  cells (st_mem (final (apple_glx_get_surface_from_uid fuel uid s)))
    = cells (st_mem s) /\
  (exists new,
     st_log (final (apple_glx_get_surface_from_uid fuel uid s))
       = st_log s ++ new /\
     Forall reads_under_lock new) /\
  (forall r s', apple_glx_get_surface_from_uid fuel uid s = Done r s' ->
                context_lock (st_mem s') = false).
Proof.
  unfold apple_glx_get_surface_from_uid, lock_context_list,
    unlock_context_list.
  unfold_prims. simpl.
  destruct (pthread_mutex_lock (st_world s)) as [rc w1]. simpl.
  destruct (rc =? 0); simpl.
  2: { split_and!; try done.
       eexists; split; [reflexivity|]. by repeat constructor. }
  match goal with
  | |- context [scan_context_list fuel uid ?ac ?s1] =>
      destruct (scan_context_list_frame uid fuel ac s1 eq_refl)
        as (Hh & Hl & Hc & (new & Hlog & Hnew) & Hdone);
      destruct (scan_context_list fuel uid ac s1) as [[found|] s2|s2|s2|s2]
  end; simpl in *.
  1,3,4,5: split_and!; [done|done|done| |by intros; simplify_eq].
  1,2,3,4: exists ((EvMutexLock rc, st_mem s, st_world s) :: new);
    rewrite Hlog, <- app_assoc; split; [done|]; by constructor.
  destruct Hdone as [Hm Hw].
  destruct (pthread_mutex_unlock (st_world s2)) as [rc2 w2]; simpl.
  destruct (rc2 =? 0); simpl.
  all: split_and!; try done; try (by intros; simplify_eq).
  all: eexists; rewrite Hlog, <- !app_assoc; split; [reflexivity|].
  all: simpl; constructor; [done|]; apply Forall_app_2; [done|].
  all: by repeat constructor.
Qed.

(** On a well-formed list, the lookup returns the first match. *)
Lemma get_surface_run (s : state W) uid l fuel w1 w2 :
  registry (st_mem s) l ->
  (length l <= fuel)%nat ->
  pthread_mutex_lock (st_world s) = (0, w1) ->
  pthread_mutex_unlock w1 = (0, w2) ->
  (forall q c g, q ∈ l -> heap (st_mem s) !! q = Some c ->
                 drawable c = Some g -> is_Some (drawable_at w1 g)) ->
  exists s',
    apple_glx_get_surface_from_uid fuel uid s
      = Done (first_owner (heap (st_mem s)) w1 uid l) s' /\
    st_mem s' = with_context_lock false (st_mem s) /\ st_world s' = w2.
Proof.
  intros Hreg Hfuel Hlock Hunlock Hvalid.
  unfold apple_glx_get_surface_from_uid, lock_context_list.
  pose proof (scan_context_list_spec uid l fuel None
    (context_list (st_mem s))
    (mk_state (with_context_lock true (st_mem s)) w1
              (st_log s ++ [(EvMutexLock 0, st_mem s, st_world s)]))
    w2 Hreg Hfuel Hunlock Hvalid) as Hscan.
  simpl in Hscan.
  unfold bind at 1. unfold bind at 1. unfold call. rewrite Hlock. simpl.
  unfold set_context_lock, get_mem, put_mem. unfold bind at 1. simpl.
  unfold bind at 1. unfold get_context_list, get_mem, ret.
  unfold bind at 1. simpl. eexists. split; [exact Hscan|done].
Qed.

(** The answer of a context depends on what it holds, not on its
    links. *)
Lemma owner_of_payload h h' (w : W) uid p :
  payload <$> h' !! p = payload <$> h !! p ->
  owner_of h' w uid p = owner_of h w uid p.
Proof.
  unfold owner_of.
  destruct (h' !! p) as [c'|], (h !! p) as [c|]; simpl; try done.
  intros [= Ho _ Hd _ _ _]. by rewrite Ho, Hd.
Qed.

Lemma first_owner_payload h h' (w : W) uid l :
  (forall p, p ∈ l -> payload <$> h' !! p = payload <$> h !! p) ->
  first_owner h' w uid l = first_owner h w uid l.
Proof.
  induction l as [|a l IH]; intros Hp; simpl; [done|].
  rewrite (owner_of_payload h h') by (apply Hp; by left).
  rewrite IH; [done|]. intros p Hin. apply Hp. by right.
Qed.

(** A context with nothing attached gives no answer. *)
Lemma owner_of_unbound h (w : W) uid p c :
  h !! p = Some c -> drawable c = None -> owner_of h w uid p = None.
Proof. intros Hc Hd. unfold owner_of. by rewrite Hc, Hd. Qed.

Lemma owner_of_unallocated h (w : W) uid p :
  h !! p = None -> owner_of h w uid p = None.
Proof. intros Hc. unfold owner_of. by rewrite Hc. Qed.

End LookupMore.

Section Composition.

Context {W : Type} `{Externals W}.

(** X12: a context that was created and then destroyed leaves no trace:
    with a native layer that does not fail, both calls return, the list is
    the list of before, every struct holds what it held, the struct of the
    context is freed and the cell holds [NULL]. *)
Theorem create_then_destroy_restores (R : reliable_native) (s : state W)
    self ptr dpy scr mode sharedContext l share v w1 pf db w2 obj w3 :
  registry (st_mem s) l ->
  cells (st_mem s) !! ptr = Some v ->
  match sharedContext with
  | Some sharedac => context_obj <$> heap (st_mem s) !! sharedac
  | None => Some NULL
  end = Some share ->
  malloc_ok (st_world s) = (true, w1) ->
  apple_visual_create_pfobj mode w1 = ((pf, db), w2) ->
  cgl_create_context pf share w2 = ((0, obj), w3) ->
  exists s1 s2 ac,
    apple_glx_create_context self ptr dpy scr mode sharedContext s
      = Done tt s1 /\
    cells (st_mem s1) !! ptr = Some (Some ac) /\
    apple_glx_destroy_context ptr dpy s1 = Done tt s2 /\
    registry (st_mem s2) l /\
    context_list (st_mem s2) = context_list (st_mem s) /\
    (forall p, payload <$> heap (st_mem s2) !! p
               = payload <$> heap (st_mem s) !! p) /\
    cells (st_mem s2) = <[ptr := None]> (cells (st_mem s)) /\
    context_lock (st_mem s2) = false.
Proof.
  intros Hreg Hcell Hshare Emalloc Epf Ecreate.
  destruct (native_lock R w3) as (w4 & Elock & _).
  destruct (native_unlock R w4) as (w5 & Eunlock & _).
  destruct (create_run s self ptr dpy scr mode sharedContext l share v
              w1 pf db w2 obj w3 w4 w5 Hreg Hcell Hshare Emalloc Epf
              Ecreate Elock Eunlock)
    as (ac & m1 & new & Hrun1 & Hfresh & Hac & Hreg1 & Hpay1 & Hcells1
        & Hlk1 & _).
  set (s1 := mk_state m1 w5 (st_log s ++ new)) in *.
  assert (Hcell1 : cells (st_mem s1) !! ptr = Some (Some ac)).
  { simpl. by rewrite Hcells1, lookup_insert_eq. }
  destruct (destroy_run_returns R s1 ptr dpy ac _ [] l Hcell1 Hreg1 Hac)
    as [s2 Hrun2]; [done|].
  destruct (destroy_run_registry s1 s2 ptr dpy ac [] l Hcell1 Hreg1 Hrun2)
    as (Hreg2 & Hfree & Hpay2 & Hcells2 & Hlk2).
  exists s1, s2, ac. split_and!; try done.
  - simpl in Hreg2. unfold registry in Hreg, Hreg2.
    destruct l as [|a l']; simpl in *; [congruence|].
    destruct Hreg as [-> _], Hreg2 as [-> _]. done.
  - intros p. destruct (decide (p = ac)) as [->|Hne].
    + by rewrite Hfree, Hfresh.
    + rewrite Hpay2 by done. by apply Hpay1.
  - rewrite Hcells2. simpl. by rewrite Hcells1, insert_insert_eq.
Qed.

(** X13: a context that was just created has no drawable attached, and
    [apple_glx_is_current_drawable] on it reads through the [NULL]
    pointer, whatever the drawable asked about. *)
Theorem is_current_on_fresh_context_faults (s : state W) self ptr dpy scr
    mode sharedContext l share v w1 pf db w2 obj w3 w4 w5 :
  registry (st_mem s) l ->
  cells (st_mem s) !! ptr = Some v ->
  match sharedContext with
  | Some sharedac => context_obj <$> heap (st_mem s) !! sharedac
  | None => Some NULL
  end = Some share ->
  malloc_ok (st_world s) = (true, w1) ->
  apple_visual_create_pfobj mode w1 = ((pf, db), w2) ->
  cgl_create_context pf share w2 = ((0, obj), w3) ->
  pthread_mutex_lock w3 = (0, w4) ->
  pthread_mutex_unlock w4 = (0, w5) ->
  exists s1 ac,
    apple_glx_create_context self ptr dpy scr mode sharedContext s
      = Done tt s1 /\
    cells (st_mem s1) !! ptr = Some (Some ac) /\
    attached (st_mem s1) ac = None /\
    forall id, apple_glx_is_current_drawable (Some ac) id s1 = Fault s1.
Proof.
  intros Hreg Hcell Hshare Emalloc Epf Ecreate Elock Eunlock.
  destruct (create_run s self ptr dpy scr mode sharedContext l share v
              w1 pf db w2 obj w3 w4 w5 Hreg Hcell Hshare Emalloc Epf
              Ecreate Elock Eunlock)
    as (ac & m1 & new & Hrun1 & Hfresh & Hac & Hreg1 & Hpay1 & Hcells1
        & Hlk1 & _).
  eexists _, ac. split_and!; [exact Hrun1| | |].
  - simpl. by rewrite Hcells1, lookup_insert_eq.
  - unfold attached. simpl. by rewrite Hac.
  - intros id. unfold apple_glx_is_current_drawable. unfold_prims. simpl.
    by rewrite Hac.
Qed.

(** X14: the reverse lookup passes over a context that was just created:
    after a creation, it answers what the contexts of before answer, for
    every uid. *)
Theorem lookup_skips_fresh_context (s : state W) self ptr dpy scr
    mode sharedContext l share v w1 pf db w2 obj w3 w4 w5 w6 w7 fuel uid :
  registry (st_mem s) l ->
  cells (st_mem s) !! ptr = Some v ->
  match sharedContext with
  | Some sharedac => context_obj <$> heap (st_mem s) !! sharedac
  | None => Some NULL
  end = Some share ->
  malloc_ok (st_world s) = (true, w1) ->
  apple_visual_create_pfobj mode w1 = ((pf, db), w2) ->
  cgl_create_context pf share w2 = ((0, obj), w3) ->
  pthread_mutex_lock w3 = (0, w4) ->
  pthread_mutex_unlock w4 = (0, w5) ->
  pthread_mutex_lock w5 = (0, w6) ->
  pthread_mutex_unlock w6 = (0, w7) ->
  (S (length l) <= fuel)%nat ->
  (forall q c g, q ∈ l -> heap (st_mem s) !! q = Some c ->
                 drawable c = Some g -> is_Some (drawable_at w6 g)) ->
  exists s1 s2,
    apple_glx_create_context self ptr dpy scr mode sharedContext s
      = Done tt s1 /\
    apple_glx_get_surface_from_uid fuel uid s1
      = Done (first_owner (heap (st_mem s)) w6 uid l) s2.
Proof.
  intros Hreg Hcell Hshare Emalloc Epf Ecreate Elock Eunlock Elock2
    Eunlock2 Hfuel Hvalid.
  destruct (create_run s self ptr dpy scr mode sharedContext l share v
              w1 pf db w2 obj w3 w4 w5 Hreg Hcell Hshare Emalloc Epf
              Ecreate Elock Eunlock)
    as (ac & m1 & new & Hrun1 & Hfresh & Hac & Hreg1 & Hpay1 & Hcells1
        & Hlk1 & _).
  set (s1 := mk_state m1 w5 (st_log s ++ new)) in *.
  assert (Hacl : ac ∉ l).
  { intros Hin. unfold registry in Hreg.
    destruct (dlist_allocated _ _ _ _ _ Hreg Hin) as [c Hc]. congruence. }
  destruct (get_surface_run s1 uid (ac :: l) fuel w6 w7 Hreg1)
    as (s2 & Hrun2 & _); try done.
  { intros q c g [->|Hq]%elem_of_cons Hc Hg.
    - simpl in Hc. rewrite Hac in Hc. by simplify_eq.
    - pose proof (Hpay1 q ltac:(by intros ->)) as Hp. simpl in Hc.
      rewrite Hc in Hp.
      destruct (heap (st_mem s) !! q) as [c'|] eqn:Hc'; [|done].
      injection Hp as _ _ Hd _ _ _. apply (Hvalid q c' g); congruence. }
  exists s1, s2. split; [done|]. rewrite Hrun2. f_equal.
  simpl. rewrite (owner_of_unbound _ _ _ _ _ Hac eq_refl).
  apply first_owner_payload. intros p Hp. apply Hpay1. by intros ->.
Qed.

(** X15: the reverse lookup passes over a context that was destroyed:
    after a destruction that returned, it answers what the other contexts
    answered before, in their order, for every uid. *)
Theorem lookup_skips_destroyed_context (s s1 : state W) ptr dpy ac x y
    w1 w2 fuel uid :
  cells (st_mem s) !! ptr = Some (Some ac) ->
  registry (st_mem s) (x ++ ac :: y) ->
  apple_glx_destroy_context ptr dpy s = Done tt s1 ->
  pthread_mutex_lock (st_world s1) = (0, w1) ->
  pthread_mutex_unlock w1 = (0, w2) ->
  (length (x ++ y) <= fuel)%nat ->
  (forall q c g, q ∈ x ++ y -> heap (st_mem s) !! q = Some c ->
                 drawable c = Some g -> is_Some (drawable_at w1 g)) ->
  exists s2,
    apple_glx_get_surface_from_uid fuel uid s1
      = Done (first_owner (heap (st_mem s)) w1 uid (x ++ y)) s2.
Proof.
  intros Hcell Hreg Hrun Elock Eunlock Hfuel Hvalid.
  destruct (destroy_run_registry s s1 ptr dpy ac x y Hcell Hreg Hrun)
    as (Hreg1 & Hfree & Hpay & _).
  assert (Hacxy : ac ∉ x ++ y).
  { intros Hin. unfold registry in Hreg1.
    destruct (dlist_allocated _ _ _ _ _ Hreg1 Hin) as [c Hc]. congruence. }
  destruct (get_surface_run s1 uid (x ++ y) fuel w1 w2 Hreg1)
    as (s2 & Hrun2 & _); try done.
  { intros q c g Hq Hc Hg.
    pose proof (Hpay q ltac:(by intros ->)) as Hp. rewrite Hc in Hp.
    destruct (heap (st_mem s) !! q) as [c'|] eqn:Hc'; [|done].
    injection Hp as _ _ Hd _ _ _. apply (Hvalid q c' g); congruence. }
  exists s2. rewrite Hrun2. f_equal.
  apply first_owner_payload. intros p Hp. apply Hpay. by intros ->.
Qed.

(** X16: a context of the list that was made current for a drawable is
    found by the uid of the drawable's record: the reverse lookup returns
    a match, and it is the surface of that record with the native context
    of this context when no other context of the list answers for the
    uid. *)
Theorem bound_context_is_found (s s1 : state W) self dpy ac id l
    w1 w2 fuel :
  registry (st_mem s) l -> ac ∈ l ->
  id ≠ None_XID ->
  apple_glx_make_current_context self dpy (Some ac) id s = Done false s1 ->
  pthread_mutex_lock (st_world s1) = (0, w1) ->
  pthread_mutex_unlock w1 = (0, w2) ->
  (length l <= fuel)%nat ->
  (forall q c g, q ∈ l -> heap (st_mem s1) !! q = Some c ->
                 drawable c = Some g -> is_Some (drawable_at w1 g)) ->
  exists c g r found s2,
    heap (st_mem s1) !! ac = Some c /\ drawable c = Some g /\
    drawable_at w1 g = Some r /\
    apple_glx_get_surface_from_uid fuel (agd_uid r) s1
      = Done (Some found) s2 /\
    ((forall q, q ∈ l -> q ≠ ac ->
        owner_of (heap (st_mem s1)) w1 (agd_uid r) q = None) ->
     found = (agd_surface_id r, context_obj c)).
Proof.
  intros Hreg Hin Hid%N.eqb_neq Hrun Elock Eunlock Hfuel Hvalid.
  destruct (make_current_success_run s s1 self dpy ac id Hid Hrun)
    as (c & g & r0 & new & w & Hc & Hmem & _).
  pose proof (make_current_registry_run s self dpy ac id l Hreg) as Hreg1.
  rewrite Hrun in Hreg1. simpl in Hreg1.
  assert (Hc1 : heap (st_mem s1) !! ac
                = Some (set_thread_id self (set_drawable (Some g) c))).
  { rewrite Hmem. simpl. by rewrite lookup_insert_eq. }
  destruct (Hvalid ac _ g Hin Hc1 eq_refl) as [r Hr].
  destruct (get_surface_run s1 (agd_uid r) l fuel w1 w2 Hreg1 Hfuel Elock
              Eunlock Hvalid) as (s2 & Hrun2 & _).
  assert (Hown : owner_of (heap (st_mem s1)) w1 (agd_uid r) ac
                 = Some (agd_surface_id r, context_obj c)).
  { apply owner_of_Some. eexists _, g, r. split_and!; try done. }
  destruct (first_owner (heap (st_mem s1)) w1 (agd_uid r) l)
    as [found|] eqn:Hfirst.
  2: { rewrite first_owner_None in Hfirst. rewrite Hfirst in Hown; done. }
  eexists _, g, r, found, s2. split_and!; try done.
  intros Hothers.
  apply first_owner_Some in Hfirst as (x & p & y & -> & Hx & Hp).
  destruct (decide (p = ac)) as [->|Hne]; [simpl; congruence|].
  rewrite Hothers in Hp; [done| |done]. apply elem_of_app. right. by left.
Qed.

End Composition.

(** The reference world with no failure configured has a reliable native
    layer. *)
Lemma sim_reliable_native :
  @reliable_native Sim.world (Sim.externals Sim.healthy).
Proof.
  split; simpl; intros; try done.
  all: eexists; split; [reflexivity|done].
Qed.

Lemma sim_registry_one : registry (st_mem Sim.one_context) [1%positive].
Proof.
  unfold registry. simpl. split; [by vm_compute|].
  eexists. split; [by vm_compute|]. done.
Qed.

Lemma sim_registry_two :
  registry (st_mem Sim.two_contexts) [2%positive; 1%positive].
Proof.
  unfold registry. simpl. split; [by vm_compute|].
  eexists. split; [by vm_compute|]. split; [done|]. simpl.
  split; [done|]. eexists. split; [by vm_compute|]. done.
Qed.

(** X1, at work: the second context of the scenario is created, sharing
    with the first. *)
Lemma create_links_at_head_witness :
  registry (st_mem Sim.one_context) [1%positive] /\
  exists ac m',
    st_mem Sim.two_contexts = m' /\
    registry m' [ac; 1%positive] /\
    cells m' !! 2%positive = Some (Some ac) /\
    heap m' !! ac = Some (mk_context 4%N 3%N None 1%N 0 false None
                                     (Some 1%positive)).
Proof.
  split; [apply sim_registry_one|].
  assert (Hhd : context_list (st_mem Sim.one_context) = Some 1%positive)
    by (vm_compute; reflexivity).
  destruct (@create_links_at_head _ (Sim.externals Sim.healthy)
              Sim.one_context 1%N 2%positive Sim.dpy 0 0%N (Some 1%positive)
              [1%positive] 2%N None
              (Sim.mk_world ∅ NULL 2%N) 3%N false
              (Sim.mk_world ∅ NULL 3%N) 4%N
              (Sim.mk_world ∅ NULL 4%N) (Sim.mk_world ∅ NULL 4%N)
              (Sim.mk_world ∅ NULL 4%N)
              sim_registry_one)
    as (ac & m' & new & Hrun & _ & Hac & Hreg & _ & Hcells & _);
    [vm_compute; reflexivity..|].
  exists ac, m'. split_and!.
  - unfold Sim.two_contexts. rewrite Hrun. reflexivity.
  - exact Hreg.
  - rewrite Hcells. apply lookup_insert_eq.
  - rewrite Hac, Hhd. reflexivity.
Defined.

(** X2, at work: no native context can be created for a third context;
    the list of the scenario is untouched. *)
Lemma create_failure_aborts_before_lock_witness :
  creation_failed
    (events (drop (length (st_log Sim.bound))
                  (st_log Scenes.creation_failed_state))) = true /\
  @apple_glx_create_context _ Scenes.no_native_context
    1%N 2%positive Sim.dpy 0 0%N None Sim.bound
    = Aborted Scenes.creation_failed_state /\
  cells (st_mem Scenes.creation_failed_state) = cells (st_mem Sim.bound) /\
  registry (st_mem Scenes.creation_failed_state) [2%positive; 1%positive].
Proof.
  split; [vm_compute; reflexivity|].
  destruct (@create_failure_aborts_before_lock _ Scenes.no_native_context
              Sim.bound 1%N 2%positive Sim.dpy 0 0%N None
              (drop (length (st_log Sim.bound))
                    (st_log Scenes.creation_failed_state)))
    as (s' & Hrun & _ & _ & Hcells & _ & _ & Hreg);
    [vm_compute; reflexivity|vm_compute; reflexivity|].
  assert (s' = Scenes.creation_failed_state) as ->.
  { unfold Scenes.creation_failed_state. rewrite Hrun. reflexivity. }
  split_and!; [exact Hrun|exact Hcells|]. apply Hreg, sim_registry_bound.
Defined.

(** X3, at work: the first context of the scenario, second on the list,
    is destroyed. *)
Lemma destroy_removes_context_witness :
  cells (st_mem Sim.bound) !! 1%positive = Some (Some 1%positive) /\
  registry (st_mem Sim.bound) ([2%positive] ++ 1%positive :: []) /\
  @apple_glx_destroy_context _ (Sim.externals Sim.healthy)
    1%positive Sim.dpy Sim.bound = Done tt Sim.destroyed /\
  registry (st_mem Sim.destroyed) ([2%positive] ++ []) /\
  heap (st_mem Sim.destroyed) !! 1%positive = None /\
  context_lock (st_mem Sim.destroyed) = false.
Proof.
  split; [vm_compute; reflexivity|]. split; [apply sim_registry_bound|].
  split; [vm_compute; reflexivity|].
  destruct (@destroy_removes_context _ (Sim.externals Sim.healthy)
              Sim.bound Sim.destroyed 1%positive Sim.dpy 1%positive
              [2%positive] [])
    as (Hreg & Hfree & _ & _ & Hlk);
    [vm_compute; reflexivity|apply sim_registry_bound
    |vm_compute; reflexivity|].
  split_and!; [exact Hreg|exact Hfree|exact Hlk].
Defined.

(** X4, at work: the destruction of the first context returns. *)
Lemma destroy_returns_witness :
  heap (st_mem Sim.bound) !! 1%positive = Some Sim.first_struct /\
  exists s',
    @apple_glx_destroy_context _ (Sim.externals Sim.healthy)
      1%positive Sim.dpy Sim.bound = Done tt s'.
Proof.
  split; [vm_compute; reflexivity|].
  apply (@destroy_returns _ (Sim.externals Sim.healthy) sim_reliable_native
           Sim.bound 1%positive Sim.dpy 1%positive Sim.first_struct
           [2%positive] []);
    [vm_compute; reflexivity|apply sim_registry_bound
    |vm_compute; reflexivity|].
  intros g Hg. injection Hg as <-. eexists. vm_compute. reflexivity.
Defined.

(** X5, at work: the [free] of the destruction of the first context. *)
Lemma destroy_frees_after_native_teardown_witness :
  In (EvFree 1%positive)
     (events (drop (length (st_log Sim.bound)) (st_log Sim.destroyed))) /\
  exists s' pre pf obj,
    @apple_glx_destroy_context _ (Sim.externals Sim.healthy)
      1%positive Sim.dpy Sim.bound = Done tt s' /\
    events (drop (length (st_log Sim.bound)) (st_log Sim.destroyed))
      = pre ++ [EvCglDestroyPixelFormat pf 0; EvCglDestroyContext obj 0;
                EvFree 1%positive; EvGarbageCollect Sim.dpy] /\
    ~ In (EvFree 1%positive) pre.
Proof.
  assert (Hin : In (EvFree 1%positive)
     (events (drop (length (st_log Sim.bound)) (st_log Sim.destroyed)))).
  { vm_compute. do 8 right. left. reflexivity. }
  split; [exact Hin|].
  apply (@destroy_frees_after_native_teardown _ (Sim.externals Sim.healthy)
           Sim.bound 1%positive Sim.dpy 1%positive
           (drop (length (st_log Sim.bound)) (st_log Sim.destroyed))
           1%positive);
    [vm_compute; reflexivity|vm_compute; reflexivity|exact Hin].
Defined.

(** X6, at work: the native set-current fails when the first context is
    to be destroyed; the struct and the cell are as they were. *)
Lemma destroy_failure_keeps_struct_witness :
  cells (st_mem (final (@apple_glx_destroy_context _
                          (Sim.externals Scenes.set_current_fails)
                          1%positive Sim.dpy Sim.bound)))
    = cells (st_mem Sim.bound) /\
  payload <$> heap (st_mem (final (@apple_glx_destroy_context _
                                     (Sim.externals Scenes.set_current_fails)
                                     1%positive Sim.dpy Sim.bound)))
                !! 1%positive
    = payload <$> heap (st_mem Sim.bound) !! 1%positive.
Proof.
  destruct (@destroy_failure_keeps_struct _
              (Sim.externals Scenes.set_current_fails)
              Sim.bound 1%positive Sim.dpy 1%positive)
    as (Hcells & Hpay & _).
  - vm_compute; reflexivity.
  - intros s' Hrun. vm_compute in Hrun. discriminate Hrun.
  - split; [exact Hcells|exact Hpay].
Defined.

(** X8, at work: the first context is bound to the drawable [10]; the
    record of the drawable [20] cannot be created, and the context is
    left with nothing attached, the drawable [10] released. *)
Lemma make_current_create_drawable_failure_witness :
  attached (st_mem Sim.bound) 1%positive = Some 11%positive /\
  exists s',
    @apple_glx_make_current_context _
      (Sim.externals Scenes.create_drawable_fails)
      3%N Sim.dpy (Some 1%positive) 20%N Sim.bound = Done true s' /\
    attached (st_mem s') 1%positive = None /\
    events (drop (length (st_log Sim.bound))
                 (st_log Scenes.create_drawable_failed_state))
    = [EvReleaseDrawable 11%positive; EvFindDrawable 7%N 20%N None;
       EvCreateDrawable 7%N 1%positive 20%N true None].
Proof.
  split; [vm_compute; reflexivity|].
  destruct (@make_current_create_drawable_failure _
              (Sim.externals Scenes.create_drawable_fails)
              Sim.bound 3%N Sim.dpy 1%positive 20%N
              (drop (length (st_log Sim.bound))
                    (st_log Scenes.create_drawable_failed_state))
              7%N 1%positive 20%N None)
    as (s' & c & Hrun & Hc & Hmem & _ & _ & Hevents & _).
  - vm_compute; reflexivity.
  - vm_compute. do 2 right. left. reflexivity.
  - assert (Hd : drawable c = Some 11%positive).
    { pose proof Hc as Hc'. vm_compute in Hc'. injection Hc' as Hc'.
      rewrite <- Hc'. reflexivity. }
    exists s'. split_and!; [exact Hrun| |].
    + unfold attached. rewrite Hmem. simpl.
      rewrite lookup_insert_eq. reflexivity.
    + rewrite Hevents, Hd. reflexivity.
Defined.

(** X9, at work: thread [3] asks for the drawable [20] and the attach call
    fails; the owning thread stays the thread [2] of the binding. *)
Lemma make_current_error_keeps_thread_witness :
  thread_id <$> heap (st_mem
      (final (@apple_glx_make_current_context _
                (Sim.externals Sim.attach_fails)
                3%N Sim.dpy (Some 1%positive) 20%N Sim.bound)))
    !! 1%positive = Some 2%N.
Proof.
  rewrite (@make_current_error_keeps_thread _
             (Sim.externals Sim.attach_fails) Sim.bound
             (final (@apple_glx_make_current_context _
                       (Sim.externals Sim.attach_fails)
                       3%N Sim.dpy (Some 1%positive) 20%N Sim.bound))
             3%N Sim.dpy 1%positive 20%N);
    vm_compute; reflexivity.
Defined.

(** X10, at work: thread [2] binds the first context to the drawable
    [10]. *)
Lemma make_current_success_binds_witness :
  @apple_glx_make_current_context _ (Sim.externals Sim.healthy)
    2%N Sim.dpy (Some 1%positive) 10%N Sim.two_contexts
    = Done false Sim.bound /\
  exists c g,
    heap (st_mem Sim.two_contexts) !! 1%positive = Some c /\
    st_mem Sim.bound
    = with_heap (<[1%positive := set_thread_id 2%N
                                   (set_drawable (Some g) c)]>
                   (heap (st_mem Sim.two_contexts)))
                (st_mem Sim.two_contexts).
Proof.
  split; [vm_compute; reflexivity|].
  destruct (@make_current_success_binds _ (Sim.externals Sim.healthy)
              Sim.two_contexts Sim.bound 2%N Sim.dpy 1%positive 10%N)
    as (c & g & r & new & w & Hc & Hmem & _);
    [intros Hid; discriminate Hid|vm_compute; reflexivity|].
  exists c, g. split; [exact Hc|exact Hmem].
Defined.

(** X12, at work: a second context is created and destroyed at once. *)
Lemma create_then_destroy_restores_witness :
  exists s1 s2 ac,
    @apple_glx_create_context _ (Sim.externals Sim.healthy)
      1%N 2%positive Sim.dpy 0 0%N (Some 1%positive) Sim.one_context
      = Done tt s1 /\
    cells (st_mem s1) !! 2%positive = Some (Some ac) /\
    @apple_glx_destroy_context _ (Sim.externals Sim.healthy)
      2%positive Sim.dpy s1 = Done tt s2 /\
    registry (st_mem s2) [1%positive] /\
    context_lock (st_mem s2) = false.
Proof.
  destruct (@create_then_destroy_restores _ (Sim.externals Sim.healthy)
              sim_reliable_native
              Sim.one_context 1%N 2%positive Sim.dpy 0 0%N (Some 1%positive)
              [1%positive] 2%N None
              (Sim.mk_world ∅ NULL 2%N) 3%N false
              (Sim.mk_world ∅ NULL 3%N) 4%N
              (Sim.mk_world ∅ NULL 4%N)
              sim_registry_one)
    as (s1 & s2 & ac & Hrun1 & Hcell & Hrun2 & Hreg & _ & _ & _ & Hlk);
    [vm_compute; reflexivity..|].
  exists s1, s2, ac.
  split_and!; [exact Hrun1|exact Hcell|exact Hrun2|exact Hreg|exact Hlk].
Defined.

(** X13, at work: the first context of the scenario, just created. *)
Lemma is_current_on_fresh_context_faults_witness :
  exists ac,
    cells (st_mem Sim.one_context) !! 1%positive = Some (Some ac) /\
    @apple_glx_is_current_drawable _ (Sim.externals Sim.healthy)
      (Some ac) 10%N Sim.one_context = Fault Sim.one_context.
Proof.
  destruct (@is_current_on_fresh_context_faults _
              (Sim.externals Sim.healthy)
              Sim.init 1%N 1%positive Sim.dpy 0 0%N None
              [] NULL None
              (Sim.mk_world ∅ NULL 0%N) 1%N false
              (Sim.mk_world ∅ NULL 1%N) 2%N
              (Sim.mk_world ∅ NULL 2%N) (Sim.mk_world ∅ NULL 2%N)
              (Sim.mk_world ∅ NULL 2%N))
    as (s1 & ac & Hrun & Hcell & _ & Hfault);
    [vm_compute; reflexivity..|].
  assert (s1 = Sim.one_context) as ->.
  { unfold Sim.one_context. rewrite Hrun. reflexivity. }
  exists ac. split; [exact Hcell|]. apply Hfault.
Defined.

(** X14, at work: a third context is created while the first is bound to
    the drawable [10]; the uid of its record still leads to the first
    context. *)
Lemma lookup_skips_fresh_context_witness :
  exists s1 s2,
    @apple_glx_create_context _ (Sim.externals Sim.healthy)
      1%N 2%positive Sim.dpy 0 0%N None Sim.bound = Done tt s1 /\
    @apple_glx_get_surface_from_uid _ (Sim.externals Sim.healthy)
      3 1010%N s1 = Done (Some (110%N, 2%N)) s2.
Proof.
  destruct (@lookup_skips_fresh_context _ (Sim.externals Sim.healthy)
              Sim.bound 1%N 2%positive Sim.dpy 0 0%N None
              [2%positive; 1%positive] NULL (Some 2%positive)
              (st_world Sim.bound) 5%N false
              (Sim.mk_world (Sim.drawables (st_world Sim.bound)) 2%N 5%N)
              6%N
              (Sim.mk_world (Sim.drawables (st_world Sim.bound)) 2%N 6%N)
              (Sim.mk_world (Sim.drawables (st_world Sim.bound)) 2%N 6%N)
              (Sim.mk_world (Sim.drawables (st_world Sim.bound)) 2%N 6%N)
              (Sim.mk_world (Sim.drawables (st_world Sim.bound)) 2%N 6%N)
              (Sim.mk_world (Sim.drawables (st_world Sim.bound)) 2%N 6%N)
              3%nat 1010%N sim_registry_bound)
    as (s1 & s2 & Hrun1 & Hrun2);
    [vm_compute; reflexivity..|simpl; lia| |].
  { intros q c g Hq Hc Hg.
    destruct (sim_bound_records q c g Hq Hc Hg) as [r Hr].
    exists r. rewrite <- Hr. vm_compute. reflexivity. }
  exists s1, s2. split; [exact Hrun1|]. rewrite Hrun2.
  vm_compute. reflexivity.
Defined.

(** X15, at work: the second context, first on the list, is destroyed;
    the uid of the drawable [10] still leads to the first context. *)
Lemma lookup_skips_destroyed_context_witness :
  @apple_glx_destroy_context _ (Sim.externals Sim.healthy)
    2%positive Sim.dpy Sim.bound = Done tt Scenes.second_destroyed /\
  exists s2,
    @apple_glx_get_surface_from_uid _ (Sim.externals Sim.healthy)
      1 1010%N Scenes.second_destroyed = Done (Some (110%N, 2%N)) s2.
Proof.
  split; [vm_compute; reflexivity|].
  destruct (@lookup_skips_destroyed_context _ (Sim.externals Sim.healthy)
              Sim.bound Scenes.second_destroyed 2%positive Sim.dpy
              2%positive [] [1%positive]
              (st_world Scenes.second_destroyed)
              (st_world Scenes.second_destroyed) 1%nat 1010%N)
    as (s2 & Hrun);
    [vm_compute; reflexivity|apply sim_registry_bound
    |vm_compute; reflexivity|vm_compute; reflexivity
    |vm_compute; reflexivity|simpl; lia| |].
  { intros q c g Hq Hc Hg.
    destruct (sim_bound_records q c g ltac:(right; exact Hq) Hc Hg)
      as [r Hr].
    exists r. rewrite <- Hr. vm_compute. reflexivity. }
  exists s2. rewrite Hrun. vm_compute. reflexivity.
Defined.

(** X16, at work: the first context is bound to the drawable [10] and
    found by the uid [1010] of its record. *)
Lemma bound_context_is_found_witness :
  exists c g r found s2,
    heap (st_mem Sim.bound) !! 1%positive = Some c /\
    drawable c = Some g /\
    @drawable_at _ (Sim.externals Sim.healthy) (st_world Sim.bound) g
      = Some r /\
    @apple_glx_get_surface_from_uid _ (Sim.externals Sim.healthy)
      2 (agd_uid r) Sim.bound = Done (Some found) s2.
Proof.
  destruct (@bound_context_is_found _ (Sim.externals Sim.healthy)
              Sim.two_contexts Sim.bound 2%N Sim.dpy 1%positive 10%N
              [2%positive; 1%positive]
              (st_world Sim.bound) (st_world Sim.bound) 2%nat
              sim_registry_two)
    as (c & g & r & found & s2 & Hc & Hg & Hr & Hrun & _);
    [apply elem_of_cons; right; apply list_elem_of_here
    |intros Hid; discriminate Hid
    |vm_compute; reflexivity|vm_compute; reflexivity
    |vm_compute; reflexivity|simpl; lia|apply sim_bound_records|].
  exists c, g, r, found, s2.
  split_and!; [exact Hc|exact Hg|exact Hr|exact Hrun].
Defined.
